(** * Flaix financial assistant: routing, registry and conversation turn

    Shallow embedding of [src/app.py].  Python text is a list of code
    points, Python dictionaries are insertion-ordered association lists,
    and the three outside services (the language model, the HTTP data
    provider and the [json] codec) are fields of an environment record. *)

From Stdlib Require Import NArith ZArith Ascii String DecimalString.
From stdpp Require Import base decidable option list numbers.

Set Warnings "-register-all".

(** ** Python text *)

Definition pystr := list N.

(** An ASCII literal as Python text. *)
Definition py (s : string) : pystr := N_of_ascii <$> list_ascii_of_string s.
Arguments py s%_string.

Module Str.

(** [s.startswith(sep)] *)
Fixpoint startswith (sep s : pystr) : bool :=
  match sep, s with
  | [], _ => true
  | _ :: _, [] => false
  | a :: sep', b :: s' => bool_decide (a = b) && startswith sep' s'
  end.

(** [s.find(sep)]: the index of the leftmost occurrence. *)
Fixpoint find (sep s : pystr) : option nat :=
  if startswith sep s then Some 0
  else match s with
       | [] => None
       | _ :: s' => S <$> find sep s'
       end.

(** [sep in s] *)
Definition contains (sep s : pystr) : bool :=
  match find sep s with Some _ => true | None => false end.

(** [s.split(sep)] for a non-empty [sep] (every call site passes a literal;
    Python rejects an empty one): cut at the leftmost occurrence, drop the
    separator, go on with the rest.  Each cut consumes at least one
    character, so [length s] rounds suffice. *)
Fixpoint split_rounds (n : nat) (sep s : pystr) : list pystr :=
  match find sep s with
  | None => [s]
  | Some i =>
      match n with
      | 0 => [s]
      | S n' => take i s :: split_rounds n' sep (drop (i + length sep) s)
      end
  end.

Definition split (sep s : pystr) : list pystr := split_rounds (length s) sep s.

(** [c.isspace()] on a single code point. *)
Definition isspace (c : N) : bool :=
  ((9 <=? c) && (c <=? 13) || (28 <=? c) && (c <=? 32)
   || (c =? 133) || (c =? 160) || (c =? 5760)
   || (8192 <=? c) && (c <=? 8202)
   || (c =? 8232) || (c =? 8233) || (c =? 8239) || (c =? 8287)
   || (c =? 12288))%N.

Fixpoint lstrip (s : pystr) : pystr :=
  match s with
  | c :: s' => if isspace c then lstrip s' else s
  | [] => []
  end.

Definition rstrip (s : pystr) : pystr := reverse (lstrip (reverse s)).

(** [s.strip()] *)
Definition strip (s : pystr) : pystr := rstrip (lstrip s).

End Str.

(** ** Extraction of the JSON payload (orchestrator, lines 214-219)

    [None] stands for an exception raised by an index out of range. *)

Definition fence : pystr := py "```".
Definition fence_json : pystr := py "```json".

Definition json_payload (decision_text : pystr) : option pystr :=
  if Str.contains fence_json decision_text then
    after ← Str.split fence_json decision_text !! 1;
    body ← Str.split fence after !! 0;
    Some (Str.strip body)
  else if Str.contains fence decision_text then
    body ← Str.split fence decision_text !! 1;
    Some (Str.strip body)
  else Some (Str.strip decision_text).

(** ** Python values and dictionaries *)

(** The values that [json.loads] can produce.  A float is carried by its
    [repr()] text, which identifies it. *)
Inductive pyval :=
| PyNone
| PyBool (b : bool)
| PyInt (z : Z)
| PyFloat (repr : pystr)
| PyStr (s : pystr)
| PyList (l : list pyval)
| PyDict (d : list (pystr * pyval)).

(** A [dict] with text keys: pairs in insertion order, one pair per key. *)
Module Dict.
Section Ops.
Context {V : Type}.

(** [d.get(k)] *)
Fixpoint get (k : pystr) (d : list (pystr * V)) : option V :=
  match d with
  | [] => None
  | (k', v) :: d' => if decide (k = k') then Some v else get k d'
  end.

(** [k in d] *)
Definition mem (k : pystr) (d : list (pystr * V)) : bool :=
  match get k d with Some _ => true | None => false end.

(** [d[k] = v]: an existing key keeps its place, a new one goes last. *)
Fixpoint set (k : pystr) (v : V) (d : list (pystr * V)) : list (pystr * V) :=
  match d with
  | [] => [(k, v)]
  | (k', v') :: d' => if decide (k = k') then (k, v) :: d' else (k', v') :: set k v d'
  end.

Definition keys (d : list (pystr * V)) : list pystr := d.*1.

(** [d.get(k, dflt)] *)
Definition get_or (k : pystr) (dflt : V) (d : list (pystr * V)) : V :=
  default dflt (get k d).
End Ops.
End Dict.

Abbreviation dict V := (list (pystr * V)).

(** Truth value of a Python object in a condition. *)
Definition truthy (v : pyval) : bool :=
  match v with
  | PyNone => false
  | PyBool b => b
  | PyInt z => negb (z =? 0)%Z
  | PyFloat r => negb (bool_decide (r = py "0.0") || bool_decide (r = py "-0.0"))
  | PyStr s => negb (bool_decide (s = []))
  | PyList l => match l with [] => false | _ => true end
  | PyDict d => match d with [] => false | _ => true end
  end.

(** ** Exceptions, the session and the outside world *)

Inductive exn := TypeError | AttributeError | IndexError | ServiceError.

Inductive outcome (A : Type) :=
| Ok (a : A)
| Raise (e : exn).
Arguments Ok {A} a.
Arguments Raise {A} e.

(** An entry of [st.session_state.messages]. *)
Record message := { role : pystr; content : pystr }.

(** [types.Content(role=..., parts=[types.Part.from_text(text=...)])] *)
Record Content := { content_role : pystr; content_text : pystr }.

Record http_request := { url : pystr; headers : dict pystr; params : dict pyval }.

Inductive llm_call :=
| GenerateContent (contents : list Content)
| GenerateContentStream (contents : list Content).

(** The mutable state a turn acts on: the session history, and the requests
    sent so far to the data provider and to the language model. *)
Record world := {
  messages : list message;
  http_log : list http_request;
  llm_log : list llm_call
}.

(** A piece of the streamed answer: it may lack [text], or carry [None]. *)
Inductive chunk := NoText | Text (t : option pystr).

(** What iterating the response stream yields, and whether it then breaks. *)
Record stream := { chunks : list chunk; failure : option exn }.

(** The services the program calls but does not define. *)
Record env := {
  (** [json.loads]; [None] when it raises *)
  json_loads : pystr -> option pyval;
  (** [json.dumps(_, indent=2)] *)
  json_dumps : pyval -> pystr;
  (** [client.models.generate_content(...)], then [.text] *)
  generate_content : list Content -> outcome (option pystr);
  (** [client.models.generate_content_stream(...)] *)
  generate_content_stream : list Content -> stream;
  (** [requests.get(...).json()]: the body, or [str(e)] of what was raised *)
  requests_get : http_request -> pystr + pyval;
  (** [st.secrets["FINANCE_KEY"]] *)
  INDIAN_API_KEY : pystr
}.

(** Computations that read and change the world and may raise. *)
Definition Py (A : Type) : Type := world -> outcome A * world.

#[global] Instance Py_ret : MRet Py := λ A a w, (Ok a, w).

#[global] Instance Py_bind : MBind Py := λ A B f m w,
  match m w with
  | (Ok a, w') => f a w'
  | (Raise e, w') => (Raise e, w')
  end.

Definition raise {A : Type} (e : exn) : Py A := λ w, (Raise e, w).

(** [try: m  except Exception: ...] hands the outcome to the handler. *)
Definition try {A : Type} (m : Py A) : Py (outcome A) :=
  λ w, let (r, w') := m w in (Ok r, w').

Definition lift {A : Type} (r : outcome A) : Py A := λ w, (r, w).

Definition get_messages : Py (list message) := λ w, (Ok (messages w), w).

Definition append_message (m : message) : Py unit := λ w,
  (Ok (), {| messages := messages w ++ [m]; http_log := http_log w; llm_log := llm_log w |}).

Definition log_http (r : http_request) : Py unit := λ w,
  (Ok (), {| messages := messages w; http_log := http_log w ++ [r]; llm_log := llm_log w |}).

Definition log_llm (c : llm_call) : Py unit := λ w,
  (Ok (), {| messages := messages w; http_log := http_log w; llm_log := llm_log w ++ [c] |}).

(** ** The operation registry (lines 24-78) *)

Definition INDIAN_API_BASE_URL : pystr := py "https://stock.indianapi.in".

(** An entry of [API_ENDPOINTS]; a key that an entry may lack is optional. *)
Record api_info := {
  endpoint : pystr;
  required_params : option (list pystr);
  optional_params : option (list pystr);
  default_values : option (dict pyval);
  param_mapping : option (dict pystr);
  description : pystr
}.

Definition plain_endpoint (path descr : string) : api_info :=
  {| endpoint := py path; required_params := Some []; optional_params := None;
     default_values := None; param_mapping := Some []; description := py descr |}.

Definition API_ENDPOINTS : dict api_info :=
  [ (py "get_stock_details",
     {| endpoint := py "/stock";
        required_params := Some [py "stock_name"];
        optional_params := None;
        default_values := None;
        param_mapping := Some [(py "stock_name", py "name")];
        description := py "Get details for a specific stock" |});
    (py "get_trending_stocks", plain_endpoint "/trending" "Get trending stocks in the market");
    (py "get_market_news", plain_endpoint "/news" "Get latest stock market news");
    (py "get_mutual_funds", plain_endpoint "/mutual_funds" "Get mutual funds data");
    (py "get_ipo_data", plain_endpoint "/ipo" "Get IPO data");
    (py "get_bse_most_active", plain_endpoint "/BSE_most_active" "Get BSE most active stocks");
    (py "get_nse_most_active", plain_endpoint "/NSE_most_active" "Get NSE most active stocks");
    (py "get_historical_data",
     {| endpoint := py "/historical_data";
        required_params := Some [py "stock_name"];
        optional_params := Some [py "period"];
        default_values := Some [(py "period", PyStr (py "1m")); (py "filter", PyStr (py "default"))];
        param_mapping := Some [];
        description := py "Get historical data for a stock" |}) ].

Definition error_result (msg : pystr) : pyval := PyDict [(py "error", PyStr msg)].

(** The mapping loop (lines 125-128). *)
Definition mapped_name (info : api_info) (param : pystr) : pystr :=
  Dict.get_or param param (default [] (param_mapping info)).

Definition apply_mapping (info : api_info) (kwargs : dict pyval) : dict pyval :=
  fold_left (λ mapped_params '(param, value),
               Dict.set (mapped_name info param) value mapped_params)
            kwargs [].

(** The defaults loop (lines 131-133). *)
Definition apply_defaults (info : api_info) (mapped_params : dict pyval) : dict pyval :=
  fold_left (λ mapped_params '(param, value),
               if Dict.mem param mapped_params then mapped_params
               else Dict.set param value mapped_params)
            (default [] (default_values info)) mapped_params.

(** The first required parameter that [kwargs] lacks (lines 120-122). *)
Definition missing_param (info : api_info) (kwargs : dict pyval) : option pystr :=
  List.find (λ param, negb (Dict.mem param kwargs)) (default [] (required_params info)).

(** ** The prompts (lines 144-182, 230-239) *)

(** In the two literals of the classification prompt, [~] is written for the
    double quote and [^] for the arrow U+2192. *)
Definition requote (s : pystr) : pystr :=
  (λ c, if decide (c = 126%N) then 34%N else if decide (c = 94%N) then 8594%N else c) <$> s.

Definition orchestrator_preamble : pystr :=
  requote (py "
    You are an orchestrator for a financial assistant specialized in Indian markets. Your job is to analyze user queries and determine if they need real-time market data.

    IMPORTANT: Be very precise in your analysis. Only return TRUE for ~needs_api~ when the query EXPLICITLY asks for current market data, stock prices, or listings.

    Examples where needs_api should be TRUE:
    - ~Show me the most active stocks on NSE today~ ^ get_nse_most_active
    - ~What is the current price of Reliance?~ ^ get_stock_details with stock_name=~Reliance~
    - ~Tell me about trending stocks~ ^ get_trending_stocks
    - ~What are the latest IPOs?~ ^ get_ipo_data

    Examples where needs_api should be FALSE:
    - ~What is compound interest?~
    - ~How should I start investing?~
    - ~What are the tax benefits of PPF?~
    - ~Explain mutual funds to me~

    Available API functions:
    - get_stock_details(stock_name): Get details for a specific stock
    - get_trending_stocks(): Get trending stocks in the market
    - get_market_news(): Get latest stock market news
    - get_mutual_funds(): Get mutual funds data
    - get_ipo_data(): Get IPO data
    - get_bse_most_active(): Get BSE most active stocks
    - get_nse_most_active(): Get NSE most active stocks
    - get_historical_data(stock_name, period=~1m~): Get historical data for a stock

    User query: ").

Definition orchestrator_reply_format : pystr :=
  requote (py "

    Respond in JSON format with the following structure:
    {
        ~needs_api~: true/false,
        ~function~: ~function_name_if_needed~,
        ~params~: {
            ~param1~: ~value1~,
            ~param2~: ~value2~
        }
    }
    ").

Definition SYSTEM_PROMPT : pystr :=
  py "You are Flaix, a helpful and knowledgeable financial assistant designed specifically for Indian users. Your purpose is to improve financial literacy and provide guidance on investments in the Indian market.

Key responsibilities:
1. Explain financial concepts in simple, easy-to-understand language
2. Provide information about different investment options available in India (stocks, mutual funds, bonds, PPF, FDs, etc.)
3. Help users understand investment risks and returns
4. Explain tax implications of different investments in the Indian context
5. Guide users on how to start investing based on their goals and risk tolerance
6. Answer questions about market trends and financial news in India
".

Definition GREETING : pystr :=
  py "Hello! I am Flaix, your financial assistant. You can ask me about investments, financial planning, or any other financial topic.".

Definition ROLE_ACK : pystr :=
  py "I understand my role as Flaix, a financial assistant for Indian users. I'll provide helpful information about investing and financial planning in simple language.".

Definition APOLOGY : pystr :=
  py "I'm sorry, I encountered an error. Please try again later.".

Definition nl : pystr := [10%N].

(** The session as first created (lines 242-246). *)
Definition initial_messages : list message :=
  [ {| role := py "user"; content := SYSTEM_PROMPT |};
    {| role := py "model"; content := GREETING |} ].

Definition fallback_decision : pyval := PyDict [(py "needs_api", PyBool false)].

(** ** The program *)

Section Program.
Context (E : env).

(** Lines 81-99.  Whatever the request raises is turned into a result. *)
Definition call_indian_api (endpoint : pystr) (params : dict pyval) : Py pyval :=
  let request :=
    {| url := INDIAN_API_BASE_URL ++ endpoint;
       headers := [(py "X-Api-Key", INDIAN_API_KEY E)];
       params := params |} in
  log_http request;;
  mret (match requests_get E request with
        | inr body => body
        | inl e => error_result e
        end).

(** Lines 102-135. *)
Definition call_api_by_name (api_name : pystr) (kwargs : dict pyval) : Py pyval :=
  match Dict.get api_name API_ENDPOINTS with
  | None => mret (error_result (py "Unknown API: " ++ api_name))
  | Some api_info =>
      match missing_param api_info kwargs with
      | Some param => mret (error_result (py "Missing required parameter: " ++ param))
      | None =>
          let mapped_params := apply_mapping api_info kwargs in
          let mapped_params := apply_defaults api_info mapped_params in
          call_indian_api (endpoint api_info) mapped_params
      end
  end.

(** Lines 210-225: the [try] block reads the reply, extracts the payload
    and decodes it; any exception selects the fallback. *)
Definition parse_decision (response_text : option pystr) : pyval :=
  match (decision_text ← response_text;
         json_str ← json_payload decision_text;
         json_loads E json_str) with
  | Some decision => decision
  | None => fallback_decision
  end.

(** Lines 138-225.  The model call sits outside the [try]. *)
Definition orchestrator (query : pystr) : Py pyval :=
  let orchestrator_prompt := orchestrator_preamble ++ query ++ orchestrator_reply_format in
  let contents := [ {| content_role := py "user"; content_text := orchestrator_prompt |} ] in
  log_llm (GenerateContent contents);;
  response_text ← lift (generate_content E contents);
  mret (parse_decision response_text).

(** [obj.get(key, dflt)]: only a dictionary has the method. *)
Definition py_get (obj : pyval) (key : pystr) (dflt : pyval) : Py pyval :=
  match obj with
  | PyDict d => mret (Dict.get_or key dflt d)
  | _ => raise AttributeError
  end.

(** [name in API_ENDPOINTS]: a list or a dictionary cannot be hashed. *)
Definition in_API_ENDPOINTS (name : pyval) : Py bool :=
  match name with
  | PyStr s => mret (Dict.mem s API_ENDPOINTS)
  | PyList _ | PyDict _ => raise TypeError
  | _ => mret false
  end.

(** [call_api_by_name(function_name, **params)]: [params] must be a
    mapping, and may not bind [api_name] a second time. *)
Definition call_with_kwargs (function_name : pyval) (params : pyval) : Py pyval :=
  match function_name, params with
  | PyStr api_name, PyDict kwargs =>
      if Dict.mem (py "api_name") kwargs then raise TypeError
      else call_api_by_name api_name kwargs
  | _, _ => raise TypeError
  end.

Definition data_note (api_result : pyval) : pystr :=
  nl ++ py "Here is the real-time market data from the Indian Stock Market API:" ++ nl
     ++ json_dumps E api_result ++ nl ++ nl
     ++ py "Please use this data to provide an informative response to the user's query.".

(** Lines 280-289. *)
Definition fetch_api_context (decision : pyval) : Py pystr :=
  needs_api ← py_get decision (py "needs_api") (PyBool false);
  if truthy needs_api then
    function_name ← py_get decision (py "function") (PyStr []);
    params ← py_get decision (py "params") (PyDict []);
    in_API_ENDPOINTS function_name ≫= λ known : bool,
    if known then
      api_result ← call_with_kwargs function_name params;
      mret (data_note api_result)
    else mret []
  else mret [].

(** Lines 293-295. *)
Definition compose_user_query (prompt api_context : pystr) : pystr :=
  match api_context with
  | [] => prompt
  | _ => prompt ++ nl ++ nl ++ py "[SYSTEM NOTE: " ++ api_context ++ py "]"
  end.

(** Lines 303-306: how one history entry enters the context. *)
Definition history_line (m : message) : pystr :=
  if bool_decide (role m = py "user") && negb (bool_decide (content m = SYSTEM_PROMPT))
  then py "User: " ++ content m ++ nl
  else if bool_decide (role m = py "model")
  then py "Assistant: " ++ content m ++ nl
  else [].

(** Lines 301-306: [for i in range(1, min(5, len(messages) - 1))].  Every
    index the loop visits lies inside the history, so the lookup succeeds. *)
Definition conversation_history (msgs : list message) : pystr :=
  fold_left (λ (conversation_history : pystr) (i : nat),
               match msgs !! i with
               | Some m => conversation_history ++ history_line m
               | None => conversation_history
               end)
            (seq 1 (min 5 (length msgs - 1) - 1)) [].

(** Lines 298-308. *)
Definition compose_system_message (msgs : list message) : pystr :=
  if 2 <? length msgs then
    SYSTEM_PROMPT ++ nl ++ nl ++ py "Previous conversation:" ++ nl ++ conversation_history msgs
  else SYSTEM_PROMPT.

(** Lines 311-330. *)
Definition compose_contents (system_message user_query : pystr) : list Content :=
  [ {| content_role := py "user"; content_text := system_message |};
    {| content_role := py "model"; content_text := ROLE_ACK |};
    {| content_role := py "user"; content_text := user_query |} ].

(** Lines 349-352: accumulate the fragments that carry text. *)
Fixpoint accumulate (cs : list chunk) (full_response : pystr) : outcome pystr :=
  match cs with
  | [] => Ok full_response
  | NoText :: cs' => accumulate cs' full_response
  | Text None :: _ => Raise TypeError
  | Text (Some t) :: cs' => accumulate cs' (full_response ++ t)
  end.

(** Lines 342-352. *)
Definition stream_response (contents : list Content) : Py pystr :=
  log_llm (GenerateContentStream contents);;
  let response_stream := generate_content_stream E contents in
  full_response ← lift (accumulate (chunks response_stream) []);
  match failure response_stream with
  | Some e => raise e
  | None => mret full_response
  end.

(** Lines 275-355: the body of the [try]. *)
Definition answer (prompt : pystr) : Py pystr :=
  decision ← orchestrator prompt;
  api_context ← fetch_api_context decision;
  let user_query := compose_user_query prompt api_context in
  msgs ← get_messages;
  let system_message := compose_system_message msgs in
  stream_response (compose_contents system_message user_query).

(** Lines 262-363: one run of the chat input, [prompt] being the text that
    [st.chat_input] handed back.  The test of line 262 lets only a non-empty
    text start a turn; an empty one, like no submission, does nothing. *)
Definition chat_turn (prompt : pystr) : Py unit :=
  match prompt with
  | [] => mret ()
  | _ :: _ =>
      append_message {| role := py "user"; content := prompt |};;
      result ← try (answer prompt);
      let full_response :=
        match result with
        | Ok full_response => full_response
        | Raise _ => APOLOGY
        end in
      append_message {| role := py "model"; content := full_response |}
  end.

End Program.

(** ** A JSON codec for the examples

    The decoder follows the scanner of Python's [json] module on the texts
    whose numbers are integers; a number with a fraction or an exponent lies
    outside this fragment and is not decoded.  The encoder is
    [json.dumps(_, indent=2)]. *)

Module Json.

Definition is_ws (c : N) : bool :=
  bool_decide (c = 32%N) || bool_decide (c = 9%N) || bool_decide (c = 10%N) || bool_decide (c = 13%N).

Fixpoint ws (s : pystr) : pystr :=
  match s with
  | c :: s' => if is_ws c then ws s' else s
  | [] => []
  end.

Definition is_digit (c : N) : bool := ((48 <=? c) && (c <=? 57))%N.

Definition hex_value (c : N) : option N :=
  if ((48 <=? c) && (c <=? 57))%N then Some (c - 48)%N
  else if ((65 <=? c) && (c <=? 70))%N then Some (c - 55)%N
  else if ((97 <=? c) && (c <=? 102))%N then Some (c - 87)%N
  else None.

(** Four hexadecimal digits after [\u]. *)
Definition hex4 (s : pystr) : option (N * pystr) :=
  match s with
  | a :: b :: c :: d :: rest =>
      a ← hex_value a; b ← hex_value b; c ← hex_value c; d ← hex_value d;
      Some (((a * 16 + b) * 16 + c) * 16 + d, rest)%N
  | _ => None
  end.

Definition simple_escape (c : N) : option N :=
  if bool_decide (c = 34%N) then Some 34%N
  else if bool_decide (c = 92%N) then Some 92%N
  else if bool_decide (c = 47%N) then Some 47%N
  else if bool_decide (c = 98%N) then Some 8%N
  else if bool_decide (c = 102%N) then Some 12%N
  else if bool_decide (c = 110%N) then Some 10%N
  else if bool_decide (c = 114%N) then Some 13%N
  else if bool_decide (c = 116%N) then Some 9%N
  else None.

(** The text of a string literal, read after its opening quote. *)
Fixpoint string_body (n : nat) (acc s : pystr) : option (pystr * pystr) :=
  match n, s with
  | S n', c :: s' =>
      if bool_decide (c = 34%N) then Some (acc, s')
      else if (c <? 32)%N then None
      else if bool_decide (c = 92%N) then
        match s' with
        | e :: s'' =>
            if bool_decide (e = 117%N) then
              '(uni, rest) ← hex4 s'';
              match rest with
              | 92%N :: 117%N :: rest' =>
                  if ((55296 <=? uni) && (uni <=? 56319))%N then
                    '(uni2, rest'') ← hex4 rest';
                    if ((56320 <=? uni2) && (uni2 <=? 57343))%N
                    then string_body n'
                           (acc ++ [65536 + ((uni - 55296) * 1024 + (uni2 - 56320))])%N rest''
                    else string_body n' (acc ++ [uni]) rest
                  else string_body n' (acc ++ [uni]) rest
              | _ => string_body n' (acc ++ [uni]) rest
              end
            else
              ch ← simple_escape e; string_body n' (acc ++ [ch]) s''
        | [] => None
        end
      else string_body n' (acc ++ [c]) s'
  | _, _ => None
  end.

Fixpoint digits (acc : Z) (s : pystr) : Z * pystr :=
  match s with
  | c :: s' => if is_digit c then digits (acc * 10 + Z.of_N (c - 48))%Z s' else (acc, s)
  | [] => (acc, [])
  end.

(** An optional minus sign, then [0] or digits that do not start with [0];
    no fraction or exponent may follow. *)
Definition integer (s : pystr) : option (Z * pystr) :=
  let '(negative, s1) :=
    match s with
    | c :: s' => if bool_decide (c = 45%N) then (true, s') else (false, s)
    | [] => (false, s)
    end in
  '(z, rest) ←
    match s1 with
    | c :: s' =>
        if bool_decide (c = 48%N) then Some (0%Z, s')
        else if is_digit c then Some (digits 0 s1)
        else None
    | [] => None
    end;
  match rest with
  | c :: _ =>
      if bool_decide (c = 46%N) || bool_decide (c = 101%N) || bool_decide (c = 69%N)
      then None
      else Some (if negative then (- z)%Z else z, rest)
  | [] => Some (if negative then (- z)%Z else z, rest)
  end.

Definition keyword (word : string) (v : pyval) (s : pystr) : option (pyval * pystr) :=
  if Str.startswith (py word) s then Some (v, drop (length (py word)) s) else None.

Fixpoint value (n : nat) (s : pystr) {struct n} : option (pyval * pystr) :=
  match n, s with
  | S n', c :: s' =>
      if bool_decide (c = 34%N) then
        '(str, rest) ← string_body (length s') [] s'; Some (PyStr str, rest)
      else if bool_decide (c = 123%N) then
        match ws s' with
        | 125%N :: rest => Some (PyDict [], rest)
        | 34%N :: rest => members n' [] rest
        | _ => None
        end
      else if bool_decide (c = 91%N) then
        match ws s' with
        | 93%N :: rest => Some (PyList [], rest)
        | rest => elements n' [] rest
        end
      else if bool_decide (c = 110%N) then keyword "null" PyNone s
      else if bool_decide (c = 116%N) then keyword "true" (PyBool true) s
      else if bool_decide (c = 102%N) then keyword "false" (PyBool false) s
      else
        match integer s with
        | Some (z, rest) => Some (PyInt z, rest)
        | None =>
            if bool_decide (c = 78%N) then keyword "NaN" (PyFloat (py "nan")) s
            else if bool_decide (c = 73%N) then keyword "Infinity" (PyFloat (py "inf")) s
            else if bool_decide (c = 45%N) then keyword "-Infinity" (PyFloat (py "-inf")) s
            else None
        end
  | _, _ => None
  end
(** The items of an array, read after [[] or after a comma. *)
with elements (n : nat) (acc : list pyval) (s : pystr) {struct n} : option (pyval * pystr) :=
  match n with
  | S n' =>
      '(v, rest) ← value n' s;
      match ws rest with
      | c :: rest' =>
          if bool_decide (c = 93%N) then Some (PyList (acc ++ [v]), rest')
          else if bool_decide (c = 44%N) then elements n' (acc ++ [v]) (ws rest')
          else None
      | [] => None
      end
  | 0 => None
  end
(** The pairs of an object, read after the opening quote of a key. *)
with members (n : nat) (acc : dict pyval) (s : pystr) {struct n} : option (pyval * pystr) :=
  match n with
  | S n' =>
      '(key, rest) ← string_body (length s) [] s;
      match ws rest with
      | 58%N :: rest1 =>
          '(v, rest2) ← value n' (ws rest1);
          match ws rest2 with
          | c :: rest3 =>
              if bool_decide (c = 125%N) then Some (PyDict (Dict.set key v acc), rest3)
              else if bool_decide (c = 44%N) then
                match ws rest3 with
                | 34%N :: rest4 => members n' (Dict.set key v acc) rest4
                | _ => None
                end
              else None
          | [] => None
          end
      | _ => None
      end
  | 0 => None
  end.

(** [json.loads(s)] *)
Definition loads (s : pystr) : option pyval :=
  '(v, rest) ← value (2 * length s + 2) (ws s);
  match ws rest with
  | [] => Some v
  | _ => None
  end.

Definition hex_digit (d : N) : N := if (d <? 10)%N then (48 + d)%N else (87 + d)%N.

Definition u_escape (c : N) : pystr :=
  [92; 117; hex_digit (c / 4096); hex_digit (c / 256 mod 16);
   hex_digit (c / 16 mod 16); hex_digit (c mod 16)]%N.

Definition escape_char (c : N) : pystr :=
  if bool_decide (c = 34%N) then py "\" ++ [34%N]
  else if bool_decide (c = 92%N) then py "\\"
  else if bool_decide (c = 10%N) then py "\n"
  else if bool_decide (c = 13%N) then py "\r"
  else if bool_decide (c = 9%N) then py "\t"
  else if bool_decide (c = 8%N) then py "\b"
  else if bool_decide (c = 12%N) then py "\f"
  else if ((32 <=? c) && (c <=? 126))%N then [c]
  else if (c <? 65536)%N then u_escape c
  else u_escape (55296 + (c - 65536) / 1024) ++ u_escape (56320 + (c - 65536) mod 1024).

Definition quote (s : pystr) : pystr := [34%N] ++ concat (escape_char <$> s) ++ [34%N].

Definition decimal (z : Z) : pystr := py (DecimalString.NilZero.string_of_int (Z.to_int z)).

Definition float_text (r : pystr) : pystr :=
  if bool_decide (r = py "nan") then py "NaN"
  else if bool_decide (r = py "inf") then py "Infinity"
  else if bool_decide (r = py "-inf") then py "-Infinity"
  else r.

Fixpoint join (sep : pystr) (l : list pystr) : pystr :=
  match l with
  | [] => []
  | [x] => x
  | x :: l' => x ++ sep ++ join sep l'
  end.

Definition indent (level : nat) : pystr := concat (replicate level (py "  ")).

Definition block (opening closing : N) (level : nat) (items : list pystr) : pystr :=
  match items with
  | [] => [opening; closing]
  | _ => [opening] ++ nl ++ indent (S level)
         ++ join (py "," ++ nl ++ indent (S level)) items
         ++ nl ++ indent level ++ [closing]
  end.

Fixpoint dumps_at (level : nat) (v : pyval) : pystr :=
  match v with
  | PyNone => py "null"
  | PyBool true => py "true"
  | PyBool false => py "false"
  | PyInt z => decimal z
  | PyFloat r => float_text r
  | PyStr s => quote s
  | PyList l => block 91 93 level (dumps_at (S level) <$> l)
  | PyDict d =>
      block 123 125 level ((λ '(k, x), quote k ++ py ": " ++ dumps_at (S level) x) <$> d)
  end.

(** [json.dumps(v, indent=2)] *)
Definition dumps (v : pyval) : pystr := dumps_at 0 v.

End Json.


(** ** Notions used to state the properties *)

(** [sep] occurs somewhere in [s]. *)
Definition occurs (sep s : pystr) : Prop := ∃ pre post, s = pre ++ sep ++ post.

(** [sep] occurs in [s] right after [pre], and nowhere further to the left. *)
Definition leftmost (sep pre s post : pystr) : Prop :=
  s = pre ++ sep ++ post ∧
  ∀ pre' post', s = pre' ++ sep ++ post' → length pre ≤ length pre'.

(** [body] is the contents of the block that the leftmost [opener] of [text]
    opens: it follows that marker, holds no fence, and is closed by a fence
    or by the end of the text. *)
Definition block_contents (opener text body : pystr) : Prop :=
  ∃ pre tail,
    leftmost opener pre text (body ++ tail) ∧
    ¬ occurs fence body ∧
    (tail = [] ∨ ∃ tail', tail = fence ++ tail').

(** The three tiers of the payload extraction, as the specification words
    them; the text taken is trimmed in each tier. *)
Inductive payload_spec (text : pystr) : pystr → Prop :=
| payload_labeled body :
    block_contents fence_json text body →
    payload_spec text (Str.strip body)
| payload_fenced body :
    ¬ occurs fence_json text →
    block_contents fence text body →
    payload_spec text (Str.strip body)
| payload_whole :
    ¬ occurs fence text →
    payload_spec text (Str.strip text).

(** The code points that count as whitespace when text is trimmed: the
    ASCII controls and blank, NEL, the no-break spaces and the Unicode space
    separators, line and paragraph separators. *)
Definition whitespace_points : list N :=
  [9; 10; 11; 12; 13; 28; 29; 30; 31; 32; 133; 160; 5760;
   8192; 8193; 8194; 8195; 8196; 8197; 8198; 8199; 8200; 8201; 8202;
   8232; 8233; 8239; 8287; 12288]%N.

Definition whitespace (c : N) : Prop := c ∈ whitespace_points.

(** [t] is [s] trimmed: [s] without the whitespace at its two ends. *)
Definition trimmed (s t : pystr) : Prop :=
  ∃ a b,
    s = a ++ t ++ b ∧
    Forall whitespace a ∧ Forall whitespace b ∧
    (∀ c, head t = Some c → ¬ whitespace c) ∧
    (∀ c, list.last t = Some c → ¬ whitespace c).

(** [body] is the contents of the block that the leftmost [opener] of [text]
    opens: what stands between that marker and the first fence behind it, or
    the end of the text when no fence follows. *)
Definition block_of (opener text body : pystr) : Prop :=
  ∃ pre rest,
    leftmost opener pre text rest ∧
    ((∃ tail, leftmost fence body rest tail) ∨ (¬ occurs fence rest ∧ body = rest)).

(** The three tiers with the closing fence fixed as the first one behind the
    opening marker: each text has one payload. *)
Inductive three_tiers (text : pystr) : pystr → Prop :=
| tier_labeled body json_str :
    block_of fence_json text body → trimmed body json_str →
    three_tiers text json_str
| tier_fenced body json_str :
    ¬ occurs fence_json text → block_of fence text body → trimmed body json_str →
    three_tiers text json_str
| tier_whole json_str :
    ¬ occurs fence text → trimmed text json_str →
    three_tiers text json_str.

(** The first piece of a split: the text up to the leftmost separator. *)
Definition head_piece (sep s : pystr) : pystr :=
  match Str.find sep s with Some j => take j s | None => s end.

(** The shape of a Routing Decision: [needs_api] is a boolean and, when it is
    true, [function] is a text and [params] a mapping. *)
Definition is_routing_decision (v : pyval) : bool :=
  match v with
  | PyDict d =>
      match Dict.get (py "needs_api") d with
      | Some (PyBool false) => true
      | Some (PyBool true) =>
          match Dict.get (py "function") d, Dict.get (py "params") d with
          | Some (PyStr _), Some (PyDict _) => true
          | _, _ => false
          end
      | _ => false
      end
  | _ => false
  end.

(** The value supplied for the provider-facing key [k]: that of the last
    caller parameter whose translated name is [k]. *)
Definition supplied (info : api_info) (kwargs : dict pyval) (k : pystr) : option pyval :=
  list.last (omap (λ '(param, value),
                if decide (mapped_name info param = k) then Some value else None)
             kwargs).

(** The parameters with each key translated, in the order supplied. *)
Definition renamed (info : api_info) (kwargs : dict pyval) : dict pyval :=
  (λ '(param, value), (mapped_name info param, value)) <$> kwargs.

(** The request that [call_indian_api] sends. *)
Definition provider_request (E : env) (endpoint : pystr) (params : dict pyval) : http_request :=
  {| url := INDIAN_API_BASE_URL ++ endpoint;
     headers := [(py "X-Api-Key", INDIAN_API_KEY E)];
     params := params |}.

(** The user's words followed by the data annotation. *)
Definition annotated (prompt note : pystr) : pystr :=
  prompt ++ nl ++ nl ++ py "[SYSTEM NOTE: " ++ note ++ py "]".

(** The user part of an outbound generation request. *)
Definition outbound_query (c : llm_call) : option pystr :=
  match c with
  | GenerateContentStream [_; _; q] => Some (content_text q)
  | _ => None
  end.

Definition appended_user (prompt : pystr) (w : world) : world :=
  {| messages := messages w ++ [ {| role := py "user"; content := prompt |} ];
     http_log := http_log w; llm_log := llm_log w |}.

(** A computation that leaves the session history alone. *)
Definition keeps_messages {A : Type} (m : Py A) : Prop :=
  ∀ w, messages (m w).2 = messages w.

(** ** Sample environments and sessions *)

(** An environment with the codec above, in which the classifier answers
    [reply], the data provider answers [body] and the generator streams
    [answer_stream]. *)
Definition sample_env (reply : outcome (option pystr)) (body : pystr + pyval)
    (answer_stream : stream) : env :=
  {| json_loads := Json.loads;
     json_dumps := Json.dumps;
     generate_content := λ _, reply;
     generate_content_stream := λ _, answer_stream;
     requests_get := λ _, body;
     INDIAN_API_KEY := py "secret" |}.

Definition plain_stream (t : string) : stream :=
  {| chunks := [Text (Some (py t))]; failure := None |}.

Definition fresh_world : world :=
  {| messages := initial_messages; http_log := []; llm_log := [] |}.

(** A classifier reply asking for the trending stocks. *)
Definition trending_reply : pystr :=
  requote (py "{~needs_api~: true, ~function~: ~get_trending_stocks~, ~params~: {}}").

(** The data provider is unreachable. *)
Definition offline_env : env :=
  sample_env (Ok (Some trending_reply)) (inl (py "connection refused")) (plain_stream "ok").

(** The data provider answers. *)
Definition online_env : env :=
  sample_env (Ok (Some trending_reply))
             (inr (PyDict [(py "trending", PyList [PyStr (py "TCS")])]))
             (plain_stream "ok").

(** The classifier answers with JSON that is not an object. *)
Definition list_reply_env : env :=
  sample_env (Ok (Some (py "[]"))) (inl (py "unused")) (plain_stream "ok").

(** The request that asks the model to classify [query]. *)
Definition classification_request (query : pystr) : list Content :=
  [ {| content_role := py "user";
       content_text := orchestrator_preamble ++ query ++ orchestrator_reply_format |} ].

(** A session after three answered questions. *)
Definition long_session : list message :=
  initial_messages ++
  [ {| role := py "user"; content := py "q1" |};
    {| role := py "model"; content := py "a1" |};
    {| role := py "user"; content := py "q2" |};
    {| role := py "model"; content := py "a2" |};
    {| role := py "user"; content := py "q3" |};
    {| role := py "model"; content := py "a3" |};
    {| role := py "user"; content := py "q4" |} ].

(** ** The page and the session as a whole *)

(** Lines 253-259: what the page shows for one history entry, as the pair of
    the bubble's speaker and its text. *)
Definition display_message (m : message) : option (pystr * pystr) :=
  if bool_decide (role m = py "user") && negb (bool_decide (content m = SYSTEM_PROMPT))
  then Some (py "user", content m)
  else if bool_decide (role m = py "model")
  then Some (py "assistant", content m)
  else None.

(** Lines 253-259: the bubbles shown for the history, in order. *)
Definition display (msgs : list message) : list (pystr * pystr) :=
  omap display_message msgs.

(** A bubble written as a line of the conversation context. *)
Definition bubble_line (b : pystr * pystr) : pystr :=
  (if bool_decide (b.1 = py "user") then py "User: " else py "Assistant: ") ++ b.2 ++ nl.

(** The history is a sequence of pairs: a user entry, then a model entry. *)
Fixpoint alternating (msgs : list message) : bool :=
  match msgs with
  | [] => true
  | u :: m :: rest =>
      bool_decide (role u = py "user") && bool_decide (role m = py "model") && alternating rest
  | _ => false
  end.

(** [w'] is [w] with the same history, [h] added to the requests sent to the
    data provider and [l] to the calls made to the model. *)
Definition grows (w w' : world) (h : list http_request) (l : list llm_call) : Prop :=
  messages w' = messages w ∧
  http_log w' = http_log w ++ h ∧
  llm_log w' = llm_log w ++ l.

(** The texts that the fragments of a stream carry, in order. *)
Definition chunk_texts (cs : list chunk) : list pystr :=
  omap (λ c, match c with Text (Some t) => Some t | _ => None end) cs.

(** No fragment carries [None] for its text. *)
Definition texts_present (cs : list chunk) : bool :=
  forallb (λ c, match c with Text None => false | _ => true end) cs.

(** The defaults of an operation whose keys are not among [given]. *)
Definition fresh_defaults (info : api_info) (given : dict pyval) : dict pyval :=
  filter (λ kv, Dict.mem kv.1 given = false) (default [] (default_values info)).

(** The world in which [chat_turn] leaves a turn whose body ended in [w1]
    with the result [r]. *)
Definition recorded (r : outcome pystr) (w1 : world) : world :=
  {| messages := messages w1 ++
                 [ {| role := py "model";
                      content := match r with Ok t => t | Raise _ => APOLOGY end |} ];
     http_log := http_log w1;
     llm_log := llm_log w1 |}.

(** The decision asks for a call that Python rejects before making it: the
    operation name cannot be hashed, or the operation is registered and the
    parameters are no mapping or bind [api_name]. *)
Definition rejected_call (d : dict pyval) : bool :=
  match Dict.get_or (py "function") (PyStr []) d with
  | PyList _ | PyDict _ => true
  | PyStr f =>
      Dict.mem f API_ENDPOINTS &&
      match Dict.get_or (py "params") (PyDict []) d with
      | PyDict kwargs => Dict.mem (py "api_name") kwargs
      | _ => true
      end
  | _ => false
  end.

(** What [chat_turn] records for a generation request: the text the stream
    adds up to, or the apology when the stream breaks. *)
Definition streamed_reply (E : env) (contents : list Content) : pystr :=
  match accumulate (chunks (generate_content_stream E contents)) [],
        failure (generate_content_stream E contents) with
  | Ok t, None => t
  | _, _ => APOLOGY
  end.

(** The world after a turn that ended with the apology before any request
    for data or for an answer went out. *)
Definition apologized (prompt : pystr) (w : world) : world :=
  {| messages := messages w ++ [ {| role := py "user"; content := prompt |};
                                 {| role := py "model"; content := APOLOGY |} ];
     http_log := http_log w;
     llm_log := llm_log w ++ [GenerateContent (classification_request prompt)] |}.

(** The persona text, followed -- once the history has more than two
    entries -- by the heading and the lines of what the page shows for the
    history entries at positions 1 to 4, the last entry left out. *)
Definition persona_and_context (msgs : list message) : pystr :=
  if 2 <? length msgs then
    SYSTEM_PROMPT ++ nl ++ nl ++ py "Previous conversation:" ++ nl
    ++ concat (bubble_line <$> display (take (min 5 (length msgs - 1) - 1) (drop 1 msgs)))
  else SYSTEM_PROMPT.

(** The generation request that carries the user's words alone: the persona
    with the context, the model's fixed acknowledgment, the question. *)
Definition plain_request (msgs : list message) (prompt : pystr) : list Content :=
  [ {| content_role := py "user"; content_text := persona_and_context msgs |};
    {| content_role := py "model";
       content_text :=
         py "I understand my role as Flaix, a financial assistant for Indian users. I'll provide helpful information about investing and financial planning in simple language." |};
    {| content_role := py "user"; content_text := prompt |} ].

(** The world after a turn that went to the model with the user's words
    alone. *)
Definition answered_plainly (E : env) (prompt : pystr) (w : world) : world :=
  let contents :=
    plain_request (messages w ++ [ {| role := py "user"; content := prompt |} ]) prompt in
  {| messages := messages w ++ [ {| role := py "user"; content := prompt |};
                                 {| role := py "model";
                                    content := streamed_reply E contents |} ];
     http_log := http_log w;
     llm_log := llm_log w ++ [ GenerateContent (classification_request prompt);
                               GenerateContentStream contents ] |}.

(** A classifier that cannot be reached. *)
Definition silent_env : env :=
  sample_env (Raise ServiceError) (inl (py "unused")) (plain_stream "ok").

(** A classifier reply that asks for data but gives no parameter mapping. *)
Definition null_params_env : env :=
  sample_env
    (Ok (Some (requote
       (py "{~needs_api~: true, ~function~: ~get_trending_stocks~, ~params~: null}"))))
    (inl (py "unused")) (plain_stream "ok").

(** A classifier reply that cannot be decoded. *)
Definition prose_env : env :=
  sample_env (Ok (Some (py "No data is needed here.")))
             (inl (py "unused")) (plain_stream "ok").

(** * Properties *)

(** ** Facts about searching and splitting text *)

Section StrFacts.
Implicit Types sep s pre post : pystr.

Lemma startswith_app sep s :
  Str.startswith sep s = true ↔ ∃ post, s = sep ++ post.
Proof.
  revert s. induction sep as [|a sep IH]; intros s; simpl.
  - split; eauto.
  - destruct s as [|b s]; simpl.
    + split; [done|]. by intros [post ?].
    + rewrite andb_true_iff, bool_decide_eq_true, IH. split.
      * intros [-> [post ->]]. eauto.
      * intros [post [= -> ->]]. eauto.
Qed.

Lemma find_unfold sep s :
  Str.find sep s =
  if Str.startswith sep s then Some 0
  else match s with [] => None | _ :: s' => S <$> Str.find sep s' end.
Proof. by destruct s. Qed.

Lemma find_Some sep s i :
  Str.find sep s = Some i →
  ∃ pre post, length pre = i ∧ leftmost sep pre s post.
Proof.
  revert i. induction s as [|c s IH]; intros i; rewrite find_unfold.
  - destruct (Str.startswith sep []) eqn:Hsw; [|done].
    intros [= <-]. apply startswith_app in Hsw as [post Hpost].
    exists [], post. repeat split; [done|]. intros; simpl; lia.
  - destruct (Str.startswith sep (c :: s)) eqn:Hsw.
    + intros [= <-]. apply startswith_app in Hsw as [post Hpost].
      exists [], post. repeat split; [done|]. intros; simpl; lia.
    + destruct (Str.find sep s) as [j|] eqn:Hj; [|done].
      intros [= <-]. destruct (IH j eq_refl) as (pre & post & Hlen & Heq & Hmin).
      exists (c :: pre), post. repeat split.
      * simpl. by rewrite Hlen.
      * simpl. by rewrite <- Heq.
      * intros [|c' pre'] post' Hs.
        { assert (Str.startswith sep (c :: s) = true) as Hsw'
            by (apply startswith_app; eauto).
          congruence. }
        injection Hs as -> Hs. simpl. apply le_n_S. by eapply Hmin.
Qed.

Lemma find_None sep s : Str.find sep s = None → ¬ occurs sep s.
Proof.
  induction s as [|c s IH]; rewrite find_unfold.
  - destruct (Str.startswith sep []) eqn:Hsw; [done|].
    intros _ ([|? ?] & post & Hs); [|done].
    assert (Str.startswith sep [] = true) by (apply startswith_app; eauto).
    congruence.
  - destruct (Str.startswith sep (c :: s)) eqn:Hsw; [done|].
    destruct (Str.find sep s) eqn:Hj; [done|].
    intros _ ([|c' pre] & post & Hs).
    + assert (Str.startswith sep (c :: s) = true) by (apply startswith_app; eauto).
      congruence.
    + injection Hs as -> Hs. apply IH; [done|]. by exists pre, post.
Qed.

Lemma contains_occurs sep s : Str.contains sep s = true ↔ occurs sep s.
Proof.
  unfold Str.contains. destruct (Str.find sep s) as [i|] eqn:Hi.
  - split; [|done]. intros _.
    destruct (find_Some _ _ _ Hi) as (pre & post & _ & Heq & _). by exists pre, post.
  - split; [done|]. intros Hocc. by apply find_None in Hi.
Qed.

Lemma contains_false sep s : Str.contains sep s = false → ¬ occurs sep s.
Proof. intros Hc Hocc. apply contains_occurs in Hocc. congruence. Qed.

Lemma leftmost_take_drop sep pre s post :
  leftmost sep pre s post →
  take (length pre) s = pre ∧ drop (length pre + length sep) s = post.
Proof.
  intros [-> _]. split.
  - by rewrite take_app_length.
  - rewrite <- drop_drop, drop_app_length. by rewrite drop_app_length.
Qed.

Lemma split_rounds_unfold n sep s :
  Str.split_rounds n sep s =
  match Str.find sep s with
  | None => [s]
  | Some i =>
      match n with
      | 0 => [s]
      | S n' => take i s :: Str.split_rounds n' sep (drop (i + length sep) s)
      end
  end.
Proof. by destruct n. Qed.

Lemma find_nil sep : sep ≠ [] → Str.find sep [] = None.
Proof. by destruct sep. Qed.

Lemma find_bound sep s i :
  sep ≠ [] → Str.find sep s = Some i →
  length (drop (i + length sep) s) < length s.
Proof.
  intros Hsep Hi. destruct (find_Some _ _ _ Hi) as (pre & post & Hlen & Hleft).
  pose proof (leftmost_take_drop _ _ _ _ Hleft) as [_ Hdrop].
  destruct Hleft as [Hs _]. rewrite <- Hlen, Hdrop.
  rewrite Hs, !length_app.
  destruct sep; [done|simpl; lia].
Qed.

Lemma split_rounds_enough sep n m s :
  sep ≠ [] → length s ≤ n → length s ≤ m →
  Str.split_rounds n sep s = Str.split_rounds m sep s.
Proof.
  intros Hsep. revert m s. induction n as [|n IH]; intros m s Hn Hm.
  - destruct s; [|simpl in Hn; lia].
    rewrite !split_rounds_unfold, find_nil by done. done.
  - rewrite !(split_rounds_unfold _ sep s).
    destruct (Str.find sep s) as [i|] eqn:Hi; [|done].
    pose proof (find_bound _ _ _ Hsep Hi).
    destruct m as [|m]; [lia|]. f_equal. apply IH; lia.
Qed.

Lemma split_unfold sep s :
  sep ≠ [] →
  Str.split sep s =
  match Str.find sep s with
  | None => [s]
  | Some i => take i s :: Str.split sep (drop (i + length sep) s)
  end.
Proof.
  intros Hsep. unfold Str.split. rewrite split_rounds_unfold.
  destruct (Str.find sep s) as [i|] eqn:Hi; [|done].
  pose proof (find_bound _ _ _ Hsep Hi).
  destruct (length s) as [|n] eqn:Hn; [lia|].
  f_equal. apply split_rounds_enough; [done|lia|lia].
Qed.

Lemma split_first sep s : sep ≠ [] → Str.split sep s !! 0 = Some (head_piece sep s).
Proof.
  intros Hsep. rewrite split_unfold by done. unfold head_piece.
  by destruct (Str.find sep s).
Qed.

Lemma split_second sep s i :
  sep ≠ [] → Str.find sep s = Some i →
  Str.split sep s !! 1 = Some (head_piece sep (drop (i + length sep) s)).
Proof.
  intros Hsep Hi. rewrite split_unfold, Hi by done. simpl.
  by apply split_first.
Qed.

(** The first piece holds no separator and is followed by one, or by the
    end of the text. *)
Lemma head_piece_spec sep s :
  sep ≠ [] →
  ¬ occurs sep (head_piece sep s) ∧
  ∃ tail, s = head_piece sep s ++ tail ∧ (tail = [] ∨ ∃ tail', tail = sep ++ tail').
Proof.
  intros Hsep. unfold head_piece. destruct (Str.find sep s) as [j|] eqn:Hj.
  - destruct (find_Some _ _ _ Hj) as (pre & post & Hlen & Hleft).
    pose proof (leftmost_take_drop _ _ _ _ Hleft) as [Htake _].
    rewrite <- Hlen, Htake. destruct Hleft as [Hs Hmin]. split.
    + intros (a & b & Hpre).
      specialize (Hmin a (b ++ sep ++ post)).
      rewrite Hs, Hpre in Hmin. rewrite !length_app in Hmin.
      rewrite <- !(assoc_L (++)) in Hmin. specialize (Hmin eq_refl).
      destruct sep; [done|simpl in Hmin; lia].
    + exists (sep ++ post). split; [done|]. right. by exists post.
  - split; [by apply find_None|]. exists []. split; [by rewrite app_nil_r|by left].
Qed.

End StrFacts.

(** ** Payload extraction *)

Lemma fence_nonempty : fence ≠ [].
Proof. done. Qed.

Lemma fence_json_nonempty : fence_json ≠ [].
Proof. done. Qed.

(** What the code cuts out after a labeled marker is the contents of the
    labeled block. *)
Lemma labeled_block_cut text i :
  Str.find fence_json text = Some i →
  block_contents fence_json text
    (head_piece fence (head_piece fence_json (drop (i + length fence_json) text))).
Proof.
  intros Hi. destruct (find_Some _ _ _ Hi) as (pre & rest & Hlen & Hleft).
  pose proof (leftmost_take_drop _ _ _ _ Hleft) as [_ Hdrop].
  rewrite <- Hlen, Hdrop.
  destruct (head_piece_spec fence_json rest fence_json_nonempty)
    as (_ & tail2 & Hrest & Htail2).
  destruct (head_piece_spec fence (head_piece fence_json rest) fence_nonempty)
    as (Hfree & tail1 & Hafter & Htail1).
  exists pre, (tail1 ++ tail2). split_and!.
  - by rewrite (assoc_L (++)), <- Hafter, <- Hrest.
  - done.
  - destruct Htail1 as [->|[t ->]].
    + destruct Htail2 as [->|[t ->]]; [by left|]. right.
      exists (py "json" ++ t). reflexivity.
    + right. exists (t ++ tail2). by rewrite <- (assoc_L (++)).
Qed.

(** What the code cuts out after a plain fence is the contents of the block. *)
Lemma fenced_block_cut text i :
  Str.find fence text = Some i →
  block_contents fence text (head_piece fence (drop (i + length fence) text)).
Proof.
  intros Hi. destruct (find_Some _ _ _ Hi) as (pre & rest & Hlen & Hleft).
  pose proof (leftmost_take_drop _ _ _ _ Hleft) as [_ Hdrop].
  rewrite <- Hlen, Hdrop.
  destruct (head_piece_spec fence rest fence_nonempty) as (Hfree & tail & Hrest & Htail).
  exists pre, tail. split_and!; [by rewrite <- Hrest|done|done].
Qed.

(** The extraction never runs past the end of a split. *)
Lemma json_payload_total (text : pystr) : is_Some (json_payload text).
Proof.
  unfold json_payload, Str.contains.
  destruct (Str.find fence_json text) as [i|] eqn:Hi.
  - rewrite (split_second _ _ _ fence_json_nonempty Hi). simpl.
    rewrite (split_first _ _ fence_nonempty). by eexists.
  - destruct (Str.find fence text) as [i|] eqn:Hj; [|by eexists].
    rewrite (split_second _ _ _ fence_nonempty Hj). by eexists.
Qed.

(** The extraction always yields a payload, cut as the three tiers say: out
    of the block behind the leftmost json-labeled fence if the text has one;
    else out of the block behind the leftmost fence if the text has one; else
    the whole text; trimmed each time. *)
Lemma json_payload_cut (text : pystr) :
  ∃ json_str, json_payload text = Some json_str ∧ payload_spec text json_str.
Proof.
  unfold json_payload.
  destruct (Str.contains fence_json text) eqn:Hjson.
  - unfold Str.contains in Hjson.
    destruct (Str.find fence_json text) as [i|] eqn:Hi; [|done].
    rewrite (split_second _ _ _ fence_json_nonempty Hi). simpl.
    rewrite (split_first _ _ fence_nonempty). simpl.
    eexists. split; [done|]. apply payload_labeled. by apply labeled_block_cut.
  - destruct (Str.contains fence text) eqn:Hfence.
    + unfold Str.contains in Hfence.
      destruct (Str.find fence text) as [i|] eqn:Hi; [|done].
      rewrite (split_second _ _ _ fence_nonempty Hi). simpl.
      eexists. split; [done|]. apply payload_fenced.
      * by apply contains_false.
      * by apply fenced_block_cut.
    + eexists. split; [done|]. apply payload_whole. by apply contains_false.
Qed.

(** Where the text has no run of four backticks the three tiers single out
    one payload, so the relation above pins the extraction down. *)
Lemma leftmost_unique (sep pre1 post1 pre2 post2 s : pystr) :
  leftmost sep pre1 s post1 → leftmost sep pre2 s post2 → pre1 = pre2 ∧ post1 = post2.
Proof.
  intros [Hs1 Hmin1] [Hs2 Hmin2].
  assert (length pre1 = length pre2) as Hlen.
  { apply Nat.le_antisymm; [by eapply Hmin1|by eapply Hmin2]. }
  rewrite Hs1 in Hs2. apply app_inj_1 in Hs2 as [-> Hs2]; [|done].
  by apply app_inv_head in Hs2 as ->.
Qed.

Lemma cut_no_longer (b l t : pystr) :
  ¬ occurs fence (b ++ l) →
  (l ++ t = [] ∨ ∃ t', l ++ t = fence ++ t') →
  (t = [] ∨ ∃ t', t = fence ++ t') →
  ¬ occurs (py "````") (b ++ l ++ t) →
  l = [].
Proof.
  intros Hfree Hclosed1 Hclosed2 Hrun.
  destruct Hclosed1 as [Hnil|[t1 Ht1]]; [by apply app_eq_nil in Hnil as [-> _]|].
  destruct l as [|c1 [|c2 [|c3 l]]]; [done|exfalso..].
  - injection Ht1 as -> ->.
    destruct Hclosed2 as [?|[t2 Ht2]]; [done|]. injection Ht2 as ->.
    apply Hrun. by exists b, t2.
  - injection Ht1 as -> -> ->.
    destruct Hclosed2 as [?|[t2 Ht2]]; [done|]. injection Ht2 as ->.
    apply Hrun. by exists b, (96%N :: t2).
  - injection Ht1 as -> -> -> _. apply Hfree. by exists b, l.
Qed.

Lemma block_contents_unique (opener text body1 body2 : pystr) :
  ¬ occurs (py "````") text →
  block_contents opener text body1 → block_contents opener text body2 →
  body1 = body2.
Proof.
  intros Hrun (pre1 & tail1 & Hleft1 & Hfree1 & Hclosed1)
              (pre2 & tail2 & Hleft2 & Hfree2 & Hclosed2).
  destruct (leftmost_unique _ _ _ _ _ _ Hleft1 Hleft2) as [<- Hrest].
  destruct Hleft1 as [Htext _].
  assert (¬ occurs (py "````") (body1 ++ tail1)) as Hrun1.
  { intros (a & c & Hocc). apply Hrun. exists (pre1 ++ opener ++ a), c.
    rewrite Htext, Hocc. by rewrite <- !(assoc_L (++)). }
  apply app_eq_app in Hrest as [l [[-> ->]|[-> ->]]].
  - assert (l = []) as ->; [|by rewrite app_nil_r].
    apply (cut_no_longer body2 l tail1); try done.
    by rewrite <- (assoc_L (++)) in Hrun1.
  - assert (l = []) as ->; [|by rewrite app_nil_r].
    by apply (cut_no_longer body1 l tail2).
Qed.

Lemma block_contents_occurs (opener text body : pystr) :
  block_contents opener text body → occurs opener text.
Proof. intros (pre & tail & [Htext _] & _). by exists pre, (body ++ tail). Qed.

Lemma labeled_fence_is_fence (text : pystr) : occurs fence_json text → occurs fence text.
Proof. intros (pre & post & ->). by exists pre, (py "json" ++ post). Qed.

Lemma payload_spec_functional (text json1 json2 : pystr) :
  ¬ occurs (py "````") text →
  payload_spec text json1 → payload_spec text json2 → json1 = json2.
Proof.
  intros Hrun [b1 H1|b1 Hno1 H1|Hno1] [b2 H2|b2 Hno2 H2|Hno2]; try done.
  - f_equal. by eapply block_contents_unique.
  - by apply block_contents_occurs in H1.
  - by apply block_contents_occurs, labeled_fence_is_fence in H1.
  - by apply block_contents_occurs in H2.
  - f_equal. by eapply block_contents_unique.
  - by apply block_contents_occurs in H1.
  - by apply block_contents_occurs, labeled_fence_is_fence in H2.
  - by apply block_contents_occurs in H2.
Qed.

(** *** Trimming *)

Lemma whitespace_isspace (c : N) : whitespace c ↔ Str.isspace c = true.
Proof.
  split.
  - unfold whitespace, whitespace_points. intros Hc.
    repeat (apply elem_of_cons in Hc as [->|Hc]; [reflexivity|]).
    by apply elem_of_nil in Hc.
  - intros Hc. destruct (decide (c < 12289)%N) as [Hsmall|Hlarge].
    + assert (Forall (λ c, Str.isspace c = true → whitespace c)
                (N.of_nat <$> seq 0 (N.to_nat 12289))) as Hall.
      { apply (bool_decide_unpack _). vm_compute. reflexivity. }
      rewrite list.Forall_forall in Hall. apply Hall; [|done].
      apply list_elem_of_fmap. exists (N.to_nat c). split; [lia|].
      apply list_elem_of_In, in_seq. lia.
    + exfalso. unfold Str.isspace in Hc.
      repeat (apply orb_true_iff in Hc as [Hc|Hc]);
        repeat (apply andb_true_iff in Hc as [?%N.leb_le Hc]);
        first [apply N.leb_le in Hc|apply N.eqb_eq in Hc]; lia.
Qed.

Lemma lstrip_cons (c : N) (s : pystr) :
  Str.lstrip (c :: s) = if Str.isspace c then Str.lstrip s else c :: s.
Proof. reflexivity. Qed.

Lemma lstrip_spec (s : pystr) :
  ∃ a, s = a ++ Str.lstrip s ∧ Forall whitespace a ∧
       ∀ c, head (Str.lstrip s) = Some c → ¬ whitespace c.
Proof.
  induction s as [|c s (a & Hs & Ha & Hhead)].
  - exists []. split_and!; [done|constructor|done].
  - rewrite lstrip_cons. destruct (Str.isspace c) eqn:Hc.
    + exists (c :: a). split_and!; [simpl; by rewrite <- Hs| |done].
      constructor; [by apply whitespace_isspace|done].
    + exists []. split_and!; [done|constructor|].
      intros c' [= <-]. rewrite whitespace_isspace. congruence.
Qed.

Lemma rstrip_spec (s : pystr) :
  ∃ b, s = Str.rstrip s ++ b ∧ Forall whitespace b ∧
       ∀ c, list.last (Str.rstrip s) = Some c → ¬ whitespace c.
Proof.
  unfold Str.rstrip. destruct (lstrip_spec (reverse s)) as (a & Hs & Ha & Hhead).
  exists (reverse a). split_and!.
  - by rewrite <- reverse_app, <- Hs, reverse_involutive.
  - by apply Forall_reverse.
  - intros c. rewrite last_reverse. apply Hhead.
Qed.

Lemma strip_trimmed (s : pystr) : trimmed s (Str.strip s).
Proof.
  unfold Str.strip. destruct (lstrip_spec s) as (a & Hs & Ha & Hhead).
  destruct (rstrip_spec (Str.lstrip s)) as (b & Ht & Hb & Hlast).
  exists a, b. split_and!; [by rewrite <- Ht|done|done| |done].
  intros c Hc. apply Hhead. rewrite Ht.
  destruct (Str.rstrip (Str.lstrip s)); [done|exact Hc].
Qed.

Lemma lstrip_whitespace (a s : pystr) :
  Forall whitespace a → Str.lstrip (a ++ s) = Str.lstrip s.
Proof.
  induction 1 as [|c a Hc Ha IH]; [done|].
  simpl app. rewrite lstrip_cons. apply whitespace_isspace in Hc. by rewrite Hc.
Qed.

Lemma lstrip_at_text (t : pystr) :
  (∀ c, head t = Some c → ¬ whitespace c) → Str.lstrip t = t.
Proof.
  destruct t as [|c t]; [done|]. intros Hhead. rewrite lstrip_cons.
  destruct (Str.isspace c) eqn:Hc; [|done].
  destruct (Hhead c eq_refl). by apply whitespace_isspace.
Qed.

Lemma rstrip_text_whitespace (t b : pystr) :
  Forall whitespace b →
  (∀ c, list.last t = Some c → ¬ whitespace c) →
  Str.rstrip (t ++ b) = t.
Proof.
  intros Hb Hlast. unfold Str.rstrip.
  rewrite reverse_app, lstrip_whitespace by by apply Forall_reverse.
  rewrite lstrip_at_text; [apply reverse_involutive|].
  intros c. rewrite head_reverse. apply Hlast.
Qed.

(** Being trimmed is what [strip] computes, and nothing else. *)
Lemma trimmed_is_strip (s t : pystr) : trimmed s t → t = Str.strip s.
Proof.
  intros (a & b & -> & Ha & Hb & Hhead & Hlast). unfold Str.strip.
  rewrite (lstrip_whitespace a) by done.
  destruct t as [|c t].
  - simpl app. rewrite <- (app_nil_r b), (lstrip_whitespace b []) by done. done.
  - rewrite lstrip_at_text.
    + by rewrite rstrip_text_whitespace.
    + intros c' [= <-]. by apply Hhead.
Qed.

(** *** The closing fence *)

Lemma closing_fence_is_first (body tail : pystr) :
  ¬ occurs fence body →
  ¬ occurs (py "````") (body ++ fence ++ tail) →
  leftmost fence body (body ++ fence ++ tail) tail.
Proof.
  intros Hfree Hrun. split; [done|]. intros p q Heq.
  destruct (decide (length body ≤ length p)) as [|Hshort]; [done|]. exfalso.
  apply app_eq_app in Heq as [l [[-> Hq]|[-> _]]]; [|rewrite length_app in Hshort; lia].
  assert (l = []) as ->; [|rewrite app_nil_r in Hshort; lia].
  apply (cut_no_longer p l (fence ++ tail)).
  - done.
  - right. by exists q.
  - right. by exists tail.
  - by rewrite (assoc_L (++)).
Qed.

Lemma block_contents_block_of (opener text body : pystr) :
  ¬ occurs (py "````") text →
  block_contents opener text body → block_of opener text body.
Proof.
  intros Hrun (pre & tail & Hleft & Hfree & Hclosed).
  exists pre, (body ++ tail). split; [done|].
  destruct Hclosed as [->|[tail' ->]].
  - right. rewrite app_nil_r in *. split; [done|done].
  - left. exists tail'. apply closing_fence_is_first; [done|].
    intros (a & c & Hocc). apply Hrun. destruct Hleft as [-> _].
    exists (pre ++ opener ++ a), c. rewrite Hocc. by rewrite <- !(assoc_L (++)).
Qed.

Lemma block_of_unique (opener text body1 body2 : pystr) :
  block_of opener text body1 → block_of opener text body2 → body1 = body2.
Proof.
  intros (pre1 & rest1 & Hleft1 & Hbody1) (pre2 & rest2 & Hleft2 & Hbody2).
  destruct (leftmost_unique _ _ _ _ _ _ Hleft1 Hleft2) as [_ <-].
  destruct Hbody1 as [[tail1 Hclose1]|[Hnone1 ->]], Hbody2 as [[tail2 Hclose2]|[Hnone2 ->]].
  - by destruct (leftmost_unique _ _ _ _ _ _ Hclose1 Hclose2).
  - destruct Hclose1 as [Hrest _]. destruct Hnone2. by exists body1, tail1.
  - destruct Hclose2 as [Hrest _]. destruct Hnone1. by exists body2, tail2.
  - done.
Qed.

Lemma block_of_occurs (opener text body : pystr) :
  block_of opener text body → occurs opener text.
Proof. intros (pre & rest & [Htext _] & _). by exists pre, rest. Qed.

(** The three tiers single out one payload. *)
Lemma three_tiers_functional (text json1 json2 : pystr) :
  three_tiers text json1 → three_tiers text json2 → json1 = json2.
Proof.
  intros [b1 j1 H1 T1|b1 j1 Hno1 H1 T1|j1 Hno1 T1] [b2 j2 H2 T2|b2 j2 Hno2 H2 T2|j2 Hno2 T2].
  - rewrite (trimmed_is_strip _ _ T1), (trimmed_is_strip _ _ T2).
    by rewrite (block_of_unique _ _ _ _ H1 H2).
  - by apply block_of_occurs in H1.
  - by apply block_of_occurs, labeled_fence_is_fence in H1.
  - by apply block_of_occurs in H2.
  - rewrite (trimmed_is_strip _ _ T1), (trimmed_is_strip _ _ T2).
    by rewrite (block_of_unique _ _ _ _ H1 H2).
  - by apply block_of_occurs in H1.
  - by apply block_of_occurs, labeled_fence_is_fence in H2.
  - by apply block_of_occurs in H2.
  - by rewrite (trimmed_is_strip _ _ T1), (trimmed_is_strip _ _ T2).
Qed.

Lemma find_leftmost (sep s : pystr) i :
  Str.find sep s = Some i → leftmost sep (take i s) s (drop (i + length sep) s).
Proof.
  intros Hi. destruct (find_Some _ _ _ Hi) as (pre & post & <- & Hleft).
  by destruct (leftmost_take_drop _ _ _ _ Hleft) as [-> ->].
Qed.

(** C6, as the code has it.  For every reply text without a run of four
    backticks the extraction yields exactly the payload of the three tiers:
    the trimmed contents of the block opened by the leftmost json-labeled
    fence if the text has one; else the trimmed contents of the block opened
    by the leftmost fence if the text has one; else the trimmed text.  The
    contents of a block end at the first fence behind its opening marker, or
    with the text. *)
Theorem json_payload_three_tiers (text : pystr) :
  ¬ occurs (py "````") text →
  ∀ json_str, json_payload text = Some json_str ↔ three_tiers text json_str.
Proof.
  intros Hrun.
  assert (∃ json_str, json_payload text = Some json_str ∧ three_tiers text json_str)
    as (json0 & Hpayload & Htiers).
  { destruct (json_payload_cut text) as (json0 & Hpayload & Hspec).
    exists json0. split; [done|].
    destruct Hspec as [body Hblock|body Hno Hblock|Hno].
    - eapply tier_labeled; [by apply block_contents_block_of|apply strip_trimmed].
    - eapply tier_fenced; [done|by apply block_contents_block_of|apply strip_trimmed].
    - apply tier_whole; [done|apply strip_trimmed]. }
  intros json_str. split.
  - intros Hjson. rewrite Hpayload in Hjson. by injection Hjson as <-.
  - intros Hjson. by rewrite (three_tiers_functional _ _ _ Hjson Htiers).
Qed.

Lemma json_payload_three_tiers_witness :
  json_payload (py "Sure:" ++ nl ++ py "```json" ++ nl ++ py "  {}  " ++ nl
                ++ py "```" ++ nl ++ py "Bye") = Some (py "{}")
  ∧ three_tiers (py "Sure:" ++ nl ++ py "```json" ++ nl ++ py "  {}  " ++ nl
                 ++ py "```" ++ nl ++ py "Bye") (py "{}")
  ∧ three_tiers (py "  no fence here " ++ nl) (py "no fence here").
Proof.
  split; [reflexivity|]. split.
  - apply (json_payload_three_tiers
             (py "Sure:" ++ nl ++ py "```json" ++ nl ++ py "  {}  " ++ nl
              ++ py "```" ++ nl ++ py "Bye")).
    + apply contains_false. reflexivity.
    + reflexivity.
  - apply (json_payload_three_tiers (py "  no fence here " ++ nl)).
    + apply contains_false. reflexivity.
    + reflexivity.
Defined.

(** At a run of four backticks the code cuts one backtick late: the block
    opened by the labeled marker ends at the first fence behind it and holds
    [{}], while the extraction hands on [{}] with a backtick behind it. *)
Lemma backtick_run_shifts_the_cut :
  json_payload (py "```json{}````json") = Some (py "{}`") ∧
  three_tiers (py "```json{}````json") (py "{}") ∧
  py "{}`" ≠ py "{}".
Proof.
  split; [reflexivity|]. split; [|discriminate].
  apply (tier_labeled _ (py "{}")); [|exact (strip_trimmed (py "{}"))].
  exists [], (py "{}````json"). split.
  - exact (find_leftmost fence_json (py "```json{}````json") 0 eq_refl).
  - left. exists (py "`json").
    exact (find_leftmost fence (py "{}````json") 2 eq_refl).
Qed.

(** The extraction on the five kinds of reply the specification lists. *)
Example payload_of_labeled_block :
  json_payload (py "Sure:" ++ nl ++ py "```json" ++ nl ++ py "{}" ++ nl ++ py "```" ++ nl ++ py "Bye")
  = Some (py "{}").
Proof. reflexivity. Qed.

Example payload_of_unlabeled_block :
  json_payload (py "Sure:" ++ nl ++ py "```" ++ nl ++ py "{}" ++ nl ++ py "```") = Some (py "{}").
Proof. reflexivity. Qed.

Example payload_of_raw_text : json_payload (py "  {} " ++ nl) = Some (py "{}").
Proof. reflexivity. Qed.

Example payload_of_prose : json_payload (py "I cannot decide.") = Some (py "I cannot decide.").
Proof. reflexivity. Qed.

Example payload_of_empty_text : json_payload [] = Some [].
Proof. reflexivity. Qed.

(** In a run of four backticks the closing fence may be read in two ways;
    the code keeps the first backtick of the run in the payload. *)
Example payload_before_backtick_run :
  json_payload (py "```json{}````json") = Some (py "{}`").
Proof. reflexivity. Qed.

(** A labeled block wins over an unlabeled one that comes first. *)
Example payload_prefers_labeled_block :
  json_payload (py "```" ++ nl ++ py "[]" ++ nl ++ py "```" ++ nl
                ++ py "```json" ++ nl ++ py "{}" ++ nl ++ py "```")
  = Some (py "{}").
Proof. reflexivity. Qed.

(** ** Facts about dictionaries *)

Section DictFacts.
Context {V : Type}.
Implicit Types (d : dict V) (k : pystr) (v : V).

Lemma get_set k' k v d :
  Dict.get k' (Dict.set k v d) = if decide (k' = k) then Some v else Dict.get k' d.
Proof.
  induction d as [|[k0 v0] d IH]; simpl.
  - by destruct (decide (k' = k)).
  - destruct (decide (k = k0)) as [->|Hne]; simpl.
    + by destruct (decide (k' = k0)).
    + rewrite IH. destruct (decide (k' = k0)) as [->|]; [|done].
      destruct (decide (k0 = k)); [congruence|done].
Qed.

Lemma mem_get k d : Dict.mem k d = true ↔ is_Some (Dict.get k d).
Proof.
  unfold Dict.mem. destruct (Dict.get k d); split; try done.
Qed.

Lemma mem_false k d : Dict.mem k d = false ↔ Dict.get k d = None.
Proof. unfold Dict.mem. by destruct (Dict.get k d). Qed.

Lemma get_in k v d : Dict.get k d = Some v → (k, v) ∈ d.
Proof.
  induction d as [|[k0 v0] d IH]; simpl; [done|].
  destruct (decide (k = k0)) as [->|].
  - intros [= ->]. apply list_elem_of_here.
  - intros Hk. apply list_elem_of_further. by apply IH.
Qed.

Lemma last_cons_or (x : V) (l : list V) :
  list.last (x :: l) = match list.last l with Some y => Some y | None => Some x end.
Proof.
  destruct l as [|y l]; [done|].
  change (list.last (x :: y :: l)) with (list.last (y :: l)).
  destruct (list.last (y :: l)) eqn:Hlast; [done|]. exfalso.
  revert y Hlast. induction l as [|z l IH]; intros y Hlast; [done|].
  by apply (IH z).
Qed.

End DictFacts.

(** ** The operation registry *)

Section Registry.
Context (E : env).
Implicit Types (info : api_info) (kwargs : dict pyval).

Lemma supplied_cons info kwargs param value k :
  supplied info ((param, value) :: kwargs) k
  = match supplied info kwargs k with
    | Some v => Some v
    | None => if decide (mapped_name info param = k) then Some value else None
    end.
Proof.
  unfold supplied. simpl.
  destruct (decide (mapped_name info param = k)); [|by destruct (list.last _)].
  apply last_cons_or.
Qed.

Lemma supplied_absent info kwargs k :
  (∀ param, param ∈ Dict.keys kwargs → mapped_name info param ≠ k) →
  supplied info kwargs k = None.
Proof.
  induction kwargs as [|[p v] kwargs IH]; intros Hall; [done|].
  rewrite supplied_cons, IH.
  - rewrite decide_False; [done|]. apply Hall, list_elem_of_here.
  - intros param Hin. apply Hall. by apply list_elem_of_further.
Qed.

(** After the mapping loop a key holds the value supplied last for it. *)
Lemma get_mapping_loop info kwargs (acc : dict pyval) k :
  Dict.get k (fold_left (λ mapped_params '(param, value),
                           Dict.set (mapped_name info param) value mapped_params)
                        kwargs acc)
  = match supplied info kwargs k with
    | Some v => Some v
    | None => Dict.get k acc
    end.
Proof.
  revert acc. induction kwargs as [|[param value] kwargs IH]; intros acc; [done|].
  simpl. rewrite IH, get_set, supplied_cons.
  destruct (supplied info kwargs k); [done|].
  destruct (decide (mapped_name info param = k)) as [<-|Hne].
  - by rewrite decide_True.
  - by rewrite decide_False.
Qed.

(** The defaults loop fills the keys that are absent and no others. *)
Lemma get_defaults_loop (defaults mapped_params : dict pyval) k :
  Dict.get k (fold_left (λ mapped_params '(param, value),
                           if Dict.mem param mapped_params then mapped_params
                           else Dict.set param value mapped_params)
                        defaults mapped_params)
  = match Dict.get k mapped_params with
    | Some v => Some v
    | None => Dict.get k defaults
    end.
Proof.
  revert mapped_params.
  induction defaults as [|[param value] defaults IH]; intros mapped_params.
  - simpl. by destruct (Dict.get k mapped_params).
  - simpl. rewrite IH. destruct (Dict.mem param mapped_params) eqn:Hmem.
    + apply mem_get in Hmem as [v Hv].
      destruct (Dict.get k mapped_params) eqn:Hk; [done|].
      destruct (decide (k = param)) as [->|]; [congruence|done].
    + apply mem_false in Hmem. rewrite get_set.
      destruct (decide (k = param)) as [->|]; [by rewrite Hmem|done].
Qed.

Lemma get_final_params info kwargs k :
  Dict.get k (apply_defaults info (apply_mapping info kwargs))
  = match supplied info kwargs k with
    | Some v => Some v
    | None => Dict.get k (default [] (default_values info))
    end.
Proof.
  unfold apply_defaults, apply_mapping.
  rewrite get_defaults_loop, get_mapping_loop. simpl.
  by destruct (supplied info kwargs k).
Qed.

(** A parameter whose translated name no other supplied parameter shares
    is the one supplied for that name. *)
Lemma supplied_alone info kwargs param value :
  NoDup (Dict.keys kwargs) →
  (param, value) ∈ kwargs →
  (∀ other, other ∈ Dict.keys kwargs →
            mapped_name info other = mapped_name info param → other = param) →
  supplied info kwargs (mapped_name info param) = Some value.
Proof.
  induction kwargs as [|[p v] kwargs IH]; intros Hnd Hin Hinj.
  - by apply elem_of_nil in Hin.
  - unfold Dict.keys in *. simpl in *.
    apply list.NoDup_cons in Hnd as [Hfresh Hnd].
    rewrite supplied_cons.
    apply elem_of_cons in Hin as [[= <- <-]|Hin].
    + rewrite supplied_absent, decide_True; [done..|].
      intros other Hother Heq. apply Hfresh.
      rewrite <- (Hinj other); [done| |done]. by apply list_elem_of_further.
    + rewrite IH; [done..|].
      intros other Hother. apply Hinj. by apply list_elem_of_further.
Qed.

End Registry.

Lemma registered_entry api_name info :
  Dict.get api_name API_ENDPOINTS = Some info → (api_name, info) ∈ API_ENDPOINTS.
Proof. apply get_in. Qed.

(** Splits a goal about a registered operation into the eight entries. *)
Ltac registry_cases H :=
  apply registered_entry in H; unfold API_ENDPOINTS in H;
  repeat (apply elem_of_cons in H as [H|H]; [injection H as -> ->|]);
  [..|by apply elem_of_nil in H].

Lemma keys_nil {V} (d : dict V) : Dict.keys d ≡ₚ [] → d = [].
Proof. intros H%Permutation_nil_r. by destruct d. Qed.

Lemma keys_singleton {V} (d : dict V) k :
  Dict.keys d ≡ₚ [k] → ∃ v, d = [(k, v)].
Proof.
  intros H%Permutation_singleton_r.
  destruct d as [|[k' v] [|? ?]]; try done. injection H as ->. by exists v.
Qed.

(** C5.  For every registered operation, a call that supplies exactly the
    required parameters sends the request to the operation's endpoint with
    each supplied parameter under the key that the operation's rename map
    gives for it (its own key when the map has none), followed by the
    operation's defaults. *)
Theorem call_with_required_params_only (E : env) api_name info kwargs :
  Dict.get api_name API_ENDPOINTS = Some info →
  Dict.keys kwargs ≡ₚ default [] (required_params info) →
  call_api_by_name E api_name kwargs
  = call_indian_api E (endpoint info)
      (((λ '(param, value),
           (default param (Dict.get param (default [] (param_mapping info))), value))
          <$> kwargs)
       ++ default [] (default_values info)).
Proof.
  intros Hget Hkeys. registry_cases Hget; simpl in Hkeys;
    first [ apply keys_nil in Hkeys as ->
          | apply keys_singleton in Hkeys as [v ->] ];
    reflexivity.
Qed.

(** The instance the specification quotes, historical data for TCS, and one
    with a rename: the details of TCS go out under the key [name]. *)
Lemma call_with_required_params_only_witness :
  call_api_by_name online_env (py "get_historical_data") [(py "stock_name", PyStr (py "TCS"))]
  = call_indian_api online_env (py "/historical_data")
      [ (py "stock_name", PyStr (py "TCS"));
        (py "period", PyStr (py "1m"));
        (py "filter", PyStr (py "default")) ] ∧
  call_api_by_name online_env (py "get_stock_details") [(py "stock_name", PyStr (py "TCS"))]
  = call_indian_api online_env (py "/stock") [(py "name", PyStr (py "TCS"))].
Proof.
  split.
  - exact (call_with_required_params_only online_env (py "get_historical_data")
             {| endpoint := py "/historical_data";
                required_params := Some [py "stock_name"];
                optional_params := Some [py "period"];
                default_values := Some [(py "period", PyStr (py "1m"));
                                        (py "filter", PyStr (py "default"))];
                param_mapping := Some [];
                description := py "Get historical data for a stock" |}
             [(py "stock_name", PyStr (py "TCS"))] eq_refl (reflexivity _)).
  - exact (call_with_required_params_only online_env (py "get_stock_details")
             {| endpoint := py "/stock";
                required_params := Some [py "stock_name"];
                optional_params := None;
                default_values := None;
                param_mapping := Some [(py "stock_name", py "name")];
                description := py "Get details for a specific stock" |}
             [(py "stock_name", PyStr (py "TCS"))] eq_refl (reflexivity _)).
Defined.

Example stock_details_request (E : env) v :
  call_api_by_name E (py "get_stock_details") [(py "stock_name", v)]
  = call_indian_api E (py "/stock") [(py "name", v)].
Proof. reflexivity. Qed.

(** C7.  For every registered operation, a call that lacks a required
    parameter returns the error that names a missing parameter, and leaves
    the world as it was: no request is sent. *)
Theorem missing_parameter_no_request (E : env) api_name info kwargs w :
  Dict.get api_name API_ENDPOINTS = Some info →
  (∃ param, param ∈ default [] (required_params info) ∧ Dict.mem param kwargs = false) →
  ∃ param,
    param ∈ default [] (required_params info) ∧
    Dict.mem param kwargs = false ∧
    call_api_by_name E api_name kwargs w
    = (Ok (error_result (py "Missing required parameter: " ++ param)), w).
Proof.
  intros Hget (absent & Hin & Hmem). unfold call_api_by_name. rewrite Hget.
  destruct (missing_param info kwargs) as [param|] eqn:Hfind; unfold missing_param in Hfind.
  - apply find_some in Hfind as [Hparam Hneg]. exists param. split_and!.
    + by apply list_elem_of_In.
    + by apply negb_true_iff.
    + done.
  - assert (negb (Dict.mem absent kwargs) = false) as Hneg.
    { apply (find_none _ _ Hfind absent). by apply list_elem_of_In. }
    rewrite Hmem in Hneg. done.
Qed.

Lemma missing_parameter_no_request_witness :
  ∃ param,
    param ∈ [py "stock_name"] ∧
    Dict.mem param [(py "period", PyStr (py "1m"))] = false ∧
    call_api_by_name online_env (py "get_historical_data")
      [(py "period", PyStr (py "1m"))] fresh_world
    = (Ok (error_result (py "Missing required parameter: " ++ param)), fresh_world).
Proof.
  refine (missing_parameter_no_request online_env (py "get_historical_data")
            {| endpoint := py "/historical_data";
               required_params := Some [py "stock_name"];
               optional_params := Some [py "period"];
               default_values := Some [(py "period", PyStr (py "1m"));
                                       (py "filter", PyStr (py "default"))];
               param_mapping := Some [];
               description := py "Get historical data for a stock" |}
            [(py "period", PyStr (py "1m"))] fresh_world _ _).
  - reflexivity.
  - exists (py "stock_name"). split; [apply list_elem_of_here|reflexivity].
Defined.

Example missing_stock_name (E : env) w :
  call_api_by_name E (py "get_stock_details") [] w
  = (Ok (error_result (py "Missing required parameter: stock_name")), w).
Proof. reflexivity. Qed.

(** C8.  A call that names an operation absent from the registry returns
    the unknown-operation error, whatever the parameters. *)
Theorem unknown_operation_error (E : env) api_name kwargs w :
  Dict.mem api_name API_ENDPOINTS = false →
  call_api_by_name E api_name kwargs w
  = (Ok (error_result (py "Unknown API: " ++ api_name)), w).
Proof.
  intros Hmem%mem_false. unfold call_api_by_name. by rewrite Hmem.
Qed.

Lemma unknown_operation_error_witness :
  call_api_by_name online_env (py "get_gold_price") [(py "unit", PyStr (py "g"))] fresh_world
  = (Ok (error_result (py "Unknown API: get_gold_price")), fresh_world).
Proof.
  apply (unknown_operation_error online_env (py "get_gold_price")). reflexivity.
Defined.

(** C9.  For every registered operation and every call that passes the
    required-parameter check, the request goes to the operation's endpoint
    with parameters such that: a caller key absent from the rename map keeps
    its name and one present in it takes the mapped name; every supplied
    parameter appears under its translated key, with its own value when no
    other supplied key translates to the same name; a key holds the supplied
    value when one was supplied for it and the default otherwise, so that a
    default never replaces a supplied value. *)
Theorem call_translates_then_defaults (E : env) api_name info kwargs :
  Dict.get api_name API_ENDPOINTS = Some info →
  missing_param info kwargs = None →
  NoDup (Dict.keys kwargs) →
  ∃ final,
    call_api_by_name E api_name kwargs = call_indian_api E (endpoint info) final ∧
    (∀ param, mapped_name info param
              = default param (Dict.get param (default [] (param_mapping info)))) ∧
    (∀ param value, (param, value) ∈ kwargs →
       Dict.mem (mapped_name info param) final = true ∧
       ((∀ other, other ∈ Dict.keys kwargs →
                  mapped_name info other = mapped_name info param → other = param) →
        Dict.get (mapped_name info param) final = Some value)) ∧
    (∀ k, Dict.get k final
          = match supplied info kwargs k with
            | Some v => Some v
            | None => Dict.get k (default [] (default_values info))
            end) ∧
    (∀ k v, supplied info kwargs k = Some v →
            ∃ param, (param, v) ∈ kwargs ∧ mapped_name info param = k).
Proof.
  intros Hget Hcheck Hnd.
  exists (apply_defaults info (apply_mapping info kwargs)). split_and!.
  - unfold call_api_by_name. by rewrite Hget, Hcheck.
  - done.
  - intros param value Hin. split.
    + apply mem_get. rewrite get_final_params.
      destruct (supplied info kwargs (mapped_name info param)) eqn:Hs; [done|].
      exfalso. clear Hnd Hcheck. induction kwargs as [|[p v] kwargs IH].
      * by apply elem_of_nil in Hin.
      * rewrite supplied_cons in Hs.
        destruct (supplied info kwargs (mapped_name info param)); [done|].
        apply elem_of_cons in Hin as [[= <- <-]|Hin].
        -- by rewrite decide_True in Hs.
        -- by apply IH.
    + intros Halone. rewrite get_final_params.
      by rewrite (supplied_alone info kwargs param value).
  - apply get_final_params.
  - intros k v. clear. induction kwargs as [|[p x] kwargs IH]; [done|].
    rewrite supplied_cons. destruct (supplied info kwargs k) as [y|].
    + intros [= ->]. destruct (IH eq_refl) as (param & Hin & Hname).
      exists param. split; [by apply list_elem_of_further|done].
    + destruct (decide (mapped_name info p = k)); [|done].
      intros [= ->]. exists p. split; [apply list_elem_of_here|done].
Qed.

Lemma call_translates_then_defaults_witness :
  ∃ final,
    call_api_by_name online_env (py "get_historical_data")
      [(py "stock_name", PyStr (py "TCS")); (py "period", PyStr (py "1yr"))]
    = call_indian_api online_env (py "/historical_data") final ∧
    Dict.get (py "period") final = Some (PyStr (py "1yr")) ∧
    Dict.get (py "filter") final = Some (PyStr (py "default")).
Proof.
  destruct (call_translates_then_defaults online_env (py "get_historical_data")
              {| endpoint := py "/historical_data";
                 required_params := Some [py "stock_name"];
                 optional_params := Some [py "period"];
                 default_values := Some [(py "period", PyStr (py "1m"));
                                         (py "filter", PyStr (py "default"))];
                 param_mapping := Some [];
                 description := py "Get historical data for a stock" |}
              [(py "stock_name", PyStr (py "TCS")); (py "period", PyStr (py "1yr"))]
              eq_refl eq_refl)
    as (final & Hcall & _ & _ & Hget & _).
  - apply (bool_decide_unpack (NoDup _)). reflexivity.
  - exists final. split_and!; [exact Hcall|rewrite Hget; reflexivity..].
Defined.

(** C10.  In a call of [get_stock_details] that supplies both [stock_name]
    and [name], the two distinct keys translate to the same provider-facing
    key; the call passes the checks and the request carries that key once,
    with the value of whichever parameter was supplied later. *)
Theorem colliding_keys_later_wins (E : env) (a b : pyval) :
  py "stock_name" ≠ py "name" ∧
  (∀ info, Dict.get (py "get_stock_details") API_ENDPOINTS = Some info →
           mapped_name info (py "stock_name") = mapped_name info (py "name")) ∧
  call_api_by_name E (py "get_stock_details") [(py "stock_name", a); (py "name", b)]
  = call_indian_api E (py "/stock") [(py "name", b)] ∧
  call_api_by_name E (py "get_stock_details") [(py "name", a); (py "stock_name", b)]
  = call_indian_api E (py "/stock") [(py "name", b)].
Proof.
  split_and!; [done| |reflexivity..].
  intros info [= <-]. reflexivity.
Qed.

(** ** The orchestrator *)

(** C1, as the code has it.  For every reply text the orchestrator returns a
    value and raises nothing: the fallback [{needs_api: False}] when the text
    is missing or its payload does not decode, and otherwise the decoded JSON
    value as it is; no check of its shape is made.  The fallback is a
    well-formed Routing Decision.  Only the model call itself can raise. *)
Theorem orchestrator_fails_open (E : env) :
  (∀ text, ∃ json_str,
      json_payload text = Some json_str ∧
      parse_decision E (Some text) = default fallback_decision (json_loads E json_str)) ∧
  parse_decision E None = fallback_decision ∧
  is_routing_decision fallback_decision = true ∧
  (∀ query w,
      (orchestrator E query w).1
      = match generate_content E (classification_request query) with
        | Ok response_text => Ok (parse_decision E response_text)
        | Raise e => Raise e
        end).
Proof.
  split_and!.
  - intros text. destruct (json_payload_total text) as (json_str & Hpayload).
    exists json_str. split; [done|]. unfold parse_decision. simpl. rewrite Hpayload. simpl.
    by destruct (json_loads E json_str).
  - done.
  - done.
  - intros query w. unfold orchestrator, classification_request. simpl.
    unfold mbind, Py_bind, log_llm, lift. simpl.
    by destruct (generate_content E _).
Qed.

(** The reply [[]] decodes, so the orchestrator hands a list to its caller:
    neither a Routing Decision nor the fallback. *)
Lemma orchestrator_returns_a_list :
  (orchestrator list_reply_env (py "What is a stock?") fresh_world).1 = Ok (PyList []) ∧
  is_routing_decision (PyList []) = false ∧
  PyList [] ≠ fallback_decision.
Proof. split_and!; [reflexivity|reflexivity|discriminate]. Qed.

(** The kinds of reply the specification lists, decoded with the codec. *)
Example decision_from_labeled_block :
  parse_decision online_env
    (Some (py "Here you go:" ++ nl ++ py "```json" ++ nl ++ trending_reply ++ nl ++ py "```"))
  = PyDict [ (py "needs_api", PyBool true);
             (py "function", PyStr (py "get_trending_stocks"));
             (py "params", PyDict []) ].
Proof. reflexivity. Qed.

Example decision_from_unlabeled_block :
  is_routing_decision
    (parse_decision online_env (Some (py "```" ++ nl ++ trending_reply ++ nl ++ py "```")))
  = true.
Proof. reflexivity. Qed.

Example decision_from_raw_json :
  is_routing_decision (parse_decision online_env (Some trending_reply)) = true.
Proof. reflexivity. Qed.

Example decision_from_prose :
  parse_decision online_env (Some (py "I think no data is needed.")) = fallback_decision.
Proof. reflexivity. Qed.

Example decision_from_empty_text :
  parse_decision online_env (Some []) = fallback_decision.
Proof. reflexivity. Qed.

(** A decoded object of the wrong shape is returned all the same. *)
Example decision_of_wrong_shape :
  parse_decision online_env (Some (requote (py "{~needs_api~: ~yes~}")))
  = PyDict [(py "needs_api", PyStr (py "yes"))].
Proof. reflexivity. Qed.

(** ** Facts about computations *)

Section PyFacts.
Context {A B : Type}.
Implicit Types (m : Py A) (f : A → Py B) (w : world).

Lemma bind_ok m f w a w' : m w = (Ok a, w') → (m ≫= f) w = f a w'.
Proof. intros H. unfold mbind, Py_bind. by rewrite H. Qed.

Lemma bind_raise m f w e w' : m w = (Raise e, w') → (m ≫= f) w = (Raise e, w').
Proof. intros H. unfold mbind, Py_bind. by rewrite H. Qed.

Lemma bind_ok_inv m f w b w' :
  (m ≫= f) w = (Ok b, w') → ∃ a w1, m w = (Ok a, w1) ∧ f a w1 = (Ok b, w').
Proof.
  unfold mbind, Py_bind. destruct (m w) as [[a|e] w1]; [eauto|done].
Qed.
End PyFacts.

Section Keeps.
Context (E : env).

Lemma keeps_ret {A} (a : A) : keeps_messages (mret a : Py A).
Proof. done. Qed.

Lemma keeps_raise {A} e : keeps_messages (raise e : Py A).
Proof. done. Qed.

Lemma keeps_lift {A} (r : outcome A) : keeps_messages (lift r).
Proof. done. Qed.

Lemma keeps_log_http r : keeps_messages (log_http r).
Proof. done. Qed.

Lemma keeps_log_llm c : keeps_messages (log_llm c).
Proof. done. Qed.

Lemma keeps_get_messages : keeps_messages get_messages.
Proof. done. Qed.

Lemma keeps_bind {A B} (m : Py A) (f : A → Py B) :
  keeps_messages m → (∀ a, keeps_messages (f a)) → keeps_messages (m ≫= f).
Proof.
  intros Hm Hf w. unfold mbind, Py_bind. specialize (Hm w).
  destruct (m w) as [[a|e] w1]; simpl in *; [|done].
  by rewrite Hf.
Qed.

(** Takes a goal [keeps_messages m] apart along the structure of [m]. *)
Ltac keeps :=
  repeat first
    [ apply keeps_ret | apply keeps_raise | apply keeps_lift
    | apply keeps_log_http | apply keeps_log_llm | apply keeps_get_messages
    | apply keeps_bind; [|intros ?]
    | match goal with
      | |- keeps_messages (match ?x with _ => _ end) => destruct x
      end ].

Lemma keeps_call_api_by_name api_name kwargs :
  keeps_messages (call_api_by_name E api_name kwargs).
Proof. unfold call_api_by_name, call_indian_api. keeps. Qed.

Lemma keeps_orchestrator query : keeps_messages (orchestrator E query).
Proof. unfold orchestrator. keeps. Qed.

Lemma keeps_fetch_api_context decision : keeps_messages (fetch_api_context E decision).
Proof.
  unfold fetch_api_context, py_get, in_API_ENDPOINTS, call_with_kwargs.
  keeps; apply keeps_call_api_by_name.
Qed.

Lemma keeps_stream_response contents : keeps_messages (stream_response E contents).
Proof. unfold stream_response. keeps. Qed.

Lemma keeps_answer prompt : keeps_messages (answer E prompt).
Proof.
  unfold answer.
  apply keeps_bind; [apply keeps_orchestrator|intros decision].
  apply keeps_bind; [apply keeps_fetch_api_context|intros api_context].
  apply keeps_bind; [apply keeps_get_messages|intros msgs].
  apply keeps_stream_response.
Qed.

(** A text returned by [answer] is what a stream that ended normally added
    up to. *)
Lemma answer_ok_inv prompt w full_response w' :
  answer E prompt w = (Ok full_response, w') →
  ∃ contents,
    accumulate (chunks (generate_content_stream E contents)) [] = Ok full_response ∧
    failure (generate_content_stream E contents) = None.
Proof.
  unfold answer. intros H.
  apply bind_ok_inv in H as (decision & w1 & _ & H).
  apply bind_ok_inv in H as (api_context & w2 & _ & H).
  apply bind_ok_inv in H as (msgs & w3 & _ & H).
  eexists. unfold stream_response in H.
  apply bind_ok_inv in H as ([] & w4 & _ & H).
  apply bind_ok_inv in H as (text & w5 & Hacc & H).
  unfold lift in Hacc. injection Hacc as Hacc _.
  destruct (failure _) eqn:Hfail; [done|].
  injection H as -> _. done.
Qed.

End Keeps.

(** ** The conversation turn *)

(** C3.  Every turn -- a run of the chat input on a submitted, hence
    non-empty, prompt -- completes and appends to the history exactly the
    user's message and then one assistant message.  The assistant message is
    the apology whenever anything in the turn raised; otherwise it is the
    full text of a stream that ended normally. *)
Theorem chat_turn_appends_one_exchange (E : env) (prompt : pystr) (w : world) :
  prompt ≠ [] →
  ∃ reply w',
    chat_turn E prompt w = (Ok (), w') ∧
    messages w' = messages w ++ [ {| role := py "user"; content := prompt |};
                                  {| role := py "model"; content := reply |} ] ∧
    reply = match (answer E prompt (appended_user prompt w)).1 with
            | Ok full_response => full_response
            | Raise _ => APOLOGY
            end ∧
    (reply = APOLOGY ∨
     ∃ contents,
       accumulate (chunks (generate_content_stream E contents)) [] = Ok reply ∧
       failure (generate_content_stream E contents) = None).
Proof.
  intros Hprompt. destruct prompt as [|c prompt]; [done|]. clear Hprompt.
  pose proof (keeps_answer E (c :: prompt) (appended_user (c :: prompt) w)) as Hkeep.
  destruct (answer E (c :: prompt) (appended_user (c :: prompt) w))
    as [result w1] eqn:Hanswer.
  simpl in Hkeep.
  exists (match result with Ok full_response => full_response | Raise _ => APOLOGY end).
  eexists. split_and!.
  - unfold chat_turn, try, append_message, mbind, Py_bind.
    fold (appended_user (c :: prompt) w). rewrite Hanswer. reflexivity.
  - simpl. rewrite Hkeep. simpl. by rewrite <- (assoc_L (++)).
  - done.
  - destruct result as [full_response|e]; [right|by left].
    by eapply answer_ok_inv.
Qed.

Lemma chat_turn_appends_one_exchange_witness :
  ∃ reply w',
    chat_turn online_env (py "Which stocks are trending?") fresh_world = (Ok (), w') ∧
    messages w'
    = initial_messages ++
      [ {| role := py "user"; content := py "Which stocks are trending?" |};
        {| role := py "model"; content := reply |} ] ∧
    reply = py "ok".
Proof.
  destruct (chat_turn_appends_one_exchange online_env (py "Which stocks are trending?")
              fresh_world) as (reply & w' & Hturn & Hmessages & Hreply & _).
  - discriminate.
  - exists reply, w'. split; [exact Hturn|]. split; [exact Hmessages|].
    rewrite Hreply. reflexivity.
Defined.

(** The empty prompt starts no turn: nothing is recorded, nothing is sent. *)
Lemma chat_turn_empty (E : env) (w : world) : chat_turn E [] w = (Ok (), w).
Proof. reflexivity. Qed.

(** A stream that breaks after a first fragment: the apology is recorded,
    not the fragment. *)
Example broken_stream_records_apology :
  let E := sample_env (Ok (Some (py "{}"))) (inl (py "unused"))
             {| chunks := [Text (Some (py "Compound inte"))]; failure := Some ServiceError |} in
  messages (chat_turn E (py "What is compound interest?") fresh_world).2
  = initial_messages ++
    [ {| role := py "user"; content := py "What is compound interest?" |};
      {| role := py "model"; content := APOLOGY |} ].
Proof. reflexivity. Qed.

Example normal_stream_records_text :
  let E := sample_env (Ok (Some (py "{}"))) (inl (py "unused"))
             {| chunks := [Text (Some (py "Interest ")); NoText; Text (Some (py "on interest."))];
                failure := None |} in
  messages (chat_turn E (py "What is compound interest?") fresh_world).2
  = initial_messages ++
    [ {| role := py "user"; content := py "What is compound interest?" |};
      {| role := py "model"; content := py "Interest on interest." |} ].
Proof. reflexivity. Qed.

(** ** The data annotation *)

Section Annotation.
Context (E : env).

(** The registry lookup never raises: it returns a result or an error
    object, and sends at most the one request. *)
Lemma call_api_by_name_returns api_name kwargs w :
  ∃ api_result w',
    call_api_by_name E api_name kwargs w = (Ok api_result, w') ∧
    messages w' = messages w ∧ llm_log w' = llm_log w ∧
    api_result
    = match Dict.get api_name API_ENDPOINTS with
      | None => error_result (py "Unknown API: " ++ api_name)
      | Some info =>
          match missing_param info kwargs with
          | Some param => error_result (py "Missing required parameter: " ++ param)
          | None =>
              match requests_get E (provider_request E (endpoint info)
                                      (apply_defaults info (apply_mapping info kwargs))) with
              | inr body => body
              | inl e => error_result e
              end
          end
      end.
Proof.
  unfold call_api_by_name.
  destruct (Dict.get api_name API_ENDPOINTS) as [info|]; [|by eexists _, _].
  destruct (missing_param info kwargs); by eexists _, _.
Qed.

Lemma stream_response_logged contents w :
  llm_log (stream_response E contents w).2 = llm_log w ++ [GenerateContentStream contents] ∧
  http_log (stream_response E contents w).2 = http_log w.
Proof.
  unfold stream_response, mbind, Py_bind, log_llm, lift. simpl.
  destruct (accumulate _ _); [|done].
  by destruct (failure _).
Qed.

Lemma fetch_registered d function_name kwargs w api_result w' :
  truthy (Dict.get_or (py "needs_api") (PyBool false) d) = true →
  Dict.get_or (py "function") (PyStr []) d = PyStr function_name →
  Dict.get_or (py "params") (PyDict []) d = PyDict kwargs →
  Dict.mem (py "api_name") kwargs = false →
  Dict.mem function_name API_ENDPOINTS = true →
  call_api_by_name E function_name kwargs w = (Ok api_result, w') →
  fetch_api_context E (PyDict d) w = (Ok (data_note E api_result), w').
Proof.
  intros Hneeds Hfun Hparams Hname Hknown Hcall.
  unfold fetch_api_context, py_get, mbind, Py_bind, mret, Py_ret.
  rewrite Hneeds, Hfun, Hparams. unfold in_API_ENDPOINTS, mret, Py_ret.
  rewrite Hknown. unfold call_with_kwargs. rewrite Hname, Hcall. done.
Qed.

Lemma fetch_unregistered d function_name w :
  truthy (Dict.get_or (py "needs_api") (PyBool false) d) = true →
  Dict.get_or (py "function") (PyStr []) d = PyStr function_name →
  Dict.mem function_name API_ENDPOINTS = false →
  fetch_api_context E (PyDict d) w = (Ok [], w).
Proof.
  intros Hneeds Hfun Hknown.
  unfold fetch_api_context, py_get, mbind, Py_bind, mret, Py_ret.
  rewrite Hneeds, Hfun. unfold in_API_ENDPOINTS, mret, Py_ret.
  destruct (Dict.get_or (py "params") (PyDict []) d); by rewrite Hknown.
Qed.

Lemma data_note_nonempty api_result prompt :
  compose_user_query prompt (data_note E api_result)
  = annotated prompt (data_note E api_result).
Proof. done. Qed.

End Annotation.

(** The annotation holds the serialized result between fixed sentences. *)
Lemma note_occurs (E : env) prompt api_result :
  occurs (json_dumps E api_result) (annotated prompt (data_note E api_result)).
Proof.
  exists (prompt ++ nl ++ nl ++ py "[SYSTEM NOTE: " ++ nl
          ++ py "Here is the real-time market data from the Indian Stock Market API:" ++ nl),
         (nl ++ nl
          ++ py "Please use this data to provide an informative response to the user's query."
          ++ py "]").
  unfold annotated, data_note. repeat rewrite <- app_assoc. reflexivity.
Qed.

(** C2, as the code has it.  In a turn whose Routing Decision has a true
    [needs_api], a text [function] and a mapping [params] that does not bind
    [api_name]: if the operation is registered, the call returns a result --
    the provider's JSON, or an error object when a required parameter is
    missing or the request fails -- and the generation request goes out with
    the user's words followed by the annotation that carries the serialized
    result, error object included; if the operation is not registered, no
    request is sent to the provider and the generation request goes out with
    the user's words alone. *)
Theorem data_note_carries_result_or_error
    (E : env) (prompt : pystr) (w w1 : world) d function_name kwargs :
  orchestrator E prompt w = (Ok (PyDict d), w1) →
  truthy (Dict.get_or (py "needs_api") (PyBool false) d) = true →
  Dict.get_or (py "function") (PyStr []) d = PyStr function_name →
  Dict.get_or (py "params") (PyDict []) d = PyDict kwargs →
  Dict.mem (py "api_name") kwargs = false →
  match Dict.get function_name API_ENDPOINTS with
  | Some info =>
      ∃ api_result w2,
        call_api_by_name E function_name kwargs w1 = (Ok api_result, w2) ∧
        api_result
        = match missing_param info kwargs with
          | Some param => error_result (py "Missing required parameter: " ++ param)
          | None =>
              match requests_get E (provider_request E (endpoint info)
                                      (apply_defaults info (apply_mapping info kwargs))) with
              | inr body => body
              | inl e => error_result e
              end
          end ∧
        occurs (json_dumps E api_result) (annotated prompt (data_note E api_result)) ∧
        llm_log (answer E prompt w).2
        = llm_log w2 ++
          [ GenerateContentStream
              (compose_contents (compose_system_message (messages w))
                                (annotated prompt (data_note E api_result))) ]
  | None =>
      http_log (answer E prompt w).2 = http_log w1 ∧
      llm_log (answer E prompt w).2
      = llm_log w1 ++
        [ GenerateContentStream
            (compose_contents (compose_system_message (messages w)) prompt) ]
  end.
Proof.
  intros Horch Hneeds Hfun Hparams Hname.
  pose proof (keeps_orchestrator E prompt w) as Hmsgs. rewrite Horch in Hmsgs.
  change (messages w1 = messages w) in Hmsgs.
  destruct (Dict.get function_name API_ENDPOINTS) as [info|] eqn:Hget.
  - destruct (call_api_by_name_returns E function_name kwargs w1)
      as (api_result & w2 & Hcall & Hmsgs2 & Hllm2 & Hres).
    rewrite Hget in Hres. exists api_result, w2.
    split; [exact Hcall|]. split; [exact Hres|]. split; [apply note_occurs|].
    assert (Dict.mem function_name API_ENDPOINTS = true) as Hknown
        by (unfold Dict.mem; by rewrite Hget).
    pose proof (fetch_registered E d function_name kwargs w1 api_result w2
                  Hneeds Hfun Hparams Hname Hknown Hcall) as Hfetch.
    unfold answer. rewrite (bind_ok _ _ _ _ _ Horch).
    rewrite (bind_ok _ _ _ _ _ Hfetch).
    rewrite (bind_ok get_messages _ w2 (messages w2) w2 eq_refl).
    rewrite data_note_nonempty, Hmsgs2, Hmsgs.
    apply stream_response_logged.
  - assert (Dict.mem function_name API_ENDPOINTS = false) as Hknown
      by (unfold Dict.mem; by rewrite Hget).
    pose proof (fetch_unregistered E d function_name w1 Hneeds Hfun Hknown) as Hfetch.
    unfold answer. rewrite (bind_ok _ _ _ _ _ Horch).
    rewrite (bind_ok _ _ _ _ _ Hfetch).
    rewrite (bind_ok get_messages _ w1 (messages w1) w1 eq_refl).
    rewrite Hmsgs. change (compose_user_query prompt []) with prompt.
    destruct (stream_response_logged E
                (compose_contents (compose_system_message (messages w)) prompt) w1)
      as [Hllm Hhttp].
    split; [exact Hhttp|exact Hllm].
Qed.

(** An unreachable provider still yields an annotation: the error object is
    serialized into the prompt that goes to the model. *)
Lemma gateway_error_reaches_the_prompt :
  requests_get offline_env (provider_request offline_env (py "/trending") [])
  = inl (py "connection refused") ∧
  (list.last (llm_log (answer offline_env (py "Which stocks are trending?") fresh_world).2)
     ≫= outbound_query)
  = Some (py "Which stocks are trending?" ++ nl ++ nl
          ++ py "[SYSTEM NOTE: " ++ nl
          ++ py "Here is the real-time market data from the Indian Stock Market API:" ++ nl
          ++ py "{" ++ nl
          ++ requote (py "  ~error~: ~connection refused~") ++ nl
          ++ py "}" ++ nl ++ nl
          ++ py "Please use this data to provide an informative response to the user's query."
          ++ py "]").
Proof. split; reflexivity. Qed.

Lemma data_note_carries_result_or_error_witness :
  ∃ api_result w2,
    call_api_by_name online_env (py "get_trending_stocks") []
      (orchestrator online_env (py "Which stocks are trending?") fresh_world).2
    = (Ok api_result, w2) ∧
    api_result = PyDict [(py "trending", PyList [PyStr (py "TCS")])] ∧
    occurs (Json.dumps api_result)
           (annotated (py "Which stocks are trending?") (data_note online_env api_result)) ∧
    (list.last (llm_log (answer online_env (py "Which stocks are trending?") fresh_world).2)
       ≫= outbound_query)
    = Some (annotated (py "Which stocks are trending?") (data_note online_env api_result)).
Proof.
  pose proof (data_note_carries_result_or_error online_env
                (py "Which stocks are trending?") fresh_world
                (orchestrator online_env (py "Which stocks are trending?") fresh_world).2
                [ (py "needs_api", PyBool true);
                  (py "function", PyStr (py "get_trending_stocks"));
                  (py "params", PyDict []) ]
                (py "get_trending_stocks") []
                eq_refl eq_refl eq_refl eq_refl eq_refl) as H.
  hnf in H. destruct H as (api_result & w2 & Hcall & Hres & Hocc & Hlog).
  exists api_result, w2. split; [exact Hcall|]. split; [exact Hres|].
  split; [exact Hocc|]. rewrite Hlog. rewrite last_snoc. reflexivity.
Defined.

(** ** The conversation context *)

Lemma fold_lookup_lines (msgs : list message) (start n : nat) (acc : pystr) :
  fold_left (λ (conversation_history : pystr) (i : nat),
               match msgs !! i with
               | Some m => conversation_history ++ history_line m
               | None => conversation_history
               end)
            (seq start n) acc
  = acc ++ concat (history_line <$> take n (drop start msgs)).
Proof.
  revert start acc. induction n as [|n IH]; intros start acc.
  - simpl. by rewrite app_nil_r.
  - simpl seq. simpl fold_left. rewrite IH.
    destruct (msgs !! start) as [m|] eqn:Hm.
    + rewrite (drop_S _ _ _ Hm). simpl. by rewrite <- (assoc_L (++)).
    + apply lookup_ge_None in Hm.
      rewrite (drop_ge msgs start), (drop_ge msgs (S start)) by lia.
      by rewrite take_nil.
Qed.

(** The loop renders the messages at positions 1 up to 4, the last position
    of the history left out. *)
Lemma conversation_history_window (msgs : list message) :
  conversation_history msgs
  = concat (history_line <$> take (min 5 (length msgs - 1) - 1) (drop 1 msgs)).
Proof. unfold conversation_history. by rewrite fold_lookup_lines. Qed.

(** The indices the loop visits all lie inside the history. *)
Lemma history_index_in_range (msgs : list message) i :
  i ∈ seq 1 (min 5 (length msgs - 1) - 1) → is_Some (msgs !! i).
Proof. intros Hi%elem_of_seq. apply lookup_lt_is_Some. lia. Qed.

(** C4.  The code at a session with three answered questions and a fourth
    one being asked: the context is built from the history entries at
    positions 1 to 4 counted from the start.  It opens with the bootstrap
    acknowledgment rendered as an assistant line and stops after the second
    question, so the latest exchanges, which the comment on the loop calls
    for, are missing from it. *)
Lemma context_renders_the_acknowledgment :
  conversation_history long_session
  = py "Assistant: " ++ GREETING ++ nl
    ++ py "User: q1" ++ nl ++ py "Assistant: a1" ++ nl ++ py "User: q2" ++ nl
  ∧ compose_system_message long_session
    = SYSTEM_PROMPT ++ nl ++ nl ++ py "Previous conversation:" ++ nl
      ++ py "Assistant: " ++ GREETING ++ nl
      ++ py "User: q1" ++ nl ++ py "Assistant: a1" ++ nl ++ py "User: q2" ++ nl
  ∧ Str.contains (py "Assistant: " ++ GREETING) (compose_system_message long_session) = true
  ∧ Str.contains (py "a2") (compose_system_message long_session) = false
  ∧ Str.contains (py "q3") (compose_system_message long_session) = false
  ∧ Str.contains (py "a3") (compose_system_message long_session) = false.
Proof. split_and!; vm_compute; reflexivity. Qed.

(** * Further properties of the code *)

(** ** The payload handed to the decoder *)

Lemma lstrip_suffix (s : pystr) : ∃ a, s = a ++ Str.lstrip s.
Proof.
  induction s as [|c s [a IH]]; [by exists []|]. simpl.
  destruct (Str.isspace c); [|by exists []].
  exists (c :: a). simpl. by rewrite <- IH.
Qed.

Lemma rstrip_prefix (s : pystr) : ∃ b, s = Str.rstrip s ++ b.
Proof.
  unfold Str.rstrip. destruct (lstrip_suffix (reverse s)) as [a Ha].
  exists (reverse a). by rewrite <- reverse_app, <- Ha, reverse_involutive.
Qed.

Lemma strip_infix (s : pystr) : ∃ a b, s = a ++ Str.strip s ++ b.
Proof.
  unfold Str.strip. destruct (lstrip_suffix s) as [a Ha].
  destruct (rstrip_prefix (Str.lstrip s)) as [b Hb].
  exists a, b. by rewrite <- Hb.
Qed.

Lemma occurs_strip (sep s : pystr) : occurs sep (Str.strip s) → occurs sep s.
Proof.
  intros (pre & post & Hocc). destruct (strip_infix s) as (a & b & Hs).
  exists (a ++ pre), (post ++ b). rewrite Hs at 1. rewrite Hocc.
  by rewrite <- !(assoc_L (++)).
Qed.

(** X1.  Whatever the reply, the payload that goes to the decoder holds no
    code fence. *)
Theorem json_payload_has_no_fence (text : pystr) :
  ∃ json_str, json_payload text = Some json_str ∧ ¬ occurs fence json_str.
Proof.
  unfold json_payload, Str.contains.
  destruct (Str.find fence_json text) as [i|] eqn:Hi.
  - rewrite (split_second _ _ _ fence_json_nonempty Hi). simpl.
    rewrite (split_first _ _ fence_nonempty). simpl.
    eexists. split; [done|]. intros Hocc%occurs_strip.
    by eapply (proj1 (head_piece_spec fence _ fence_nonempty)).
  - destruct (Str.find fence text) as [i|] eqn:Hj.
    + rewrite (split_second _ _ _ fence_nonempty Hj). simpl.
      eexists. split; [done|]. intros Hocc%occurs_strip.
      by eapply (proj1 (head_piece_spec fence _ fence_nonempty)).
    + eexists. split; [done|]. intros Hocc%occurs_strip.
      by apply find_None in Hj.
Qed.

(** A separator that starts with a backtick is not found inside text that
    has none. *)
Lemma find_after_plain (sep' a s : pystr) :
  96%N ∉ a →
  Str.find (96%N :: sep') (a ++ s) = (λ i, length a + i) <$> Str.find (96%N :: sep') s.
Proof.
  induction a as [|c a IH]; intros Hplain.
  - simpl app. by destruct (Str.find _ s).
  - rewrite not_elem_of_cons in Hplain. destruct Hplain as [Hc Ha].
    rewrite find_unfold. simpl app.
    assert (Str.startswith (96%N :: sep') (c :: a ++ s) = false) as ->.
    { simpl. by rewrite bool_decide_eq_false_2. }
    rewrite (IH Ha). by destruct (Str.find _ s).
Qed.

Lemma find_at_start (sep post : pystr) : Str.find sep (sep ++ post) = Some 0.
Proof.
  rewrite find_unfold.
  assert (Str.startswith sep (sep ++ post) = true) as ->; [|done].
  apply startswith_app. by exists post.
Qed.

Lemma find_plain (sep' a : pystr) : 96%N ∉ a → Str.find (96%N :: sep') a = None.
Proof.
  intros Hplain. rewrite <- (app_nil_r a), (find_after_plain _ _ _ Hplain). done.
Qed.

Lemma head_piece_closed (a post : pystr) :
  96%N ∉ a → head_piece fence (a ++ fence ++ post) = a.
Proof.
  intros Hplain. unfold head_piece, fence.
  change (py "```") with (96%N :: py "``") at 1.
  rewrite (find_after_plain _ _ _ Hplain).
  change (96%N :: py "``") with fence. rewrite find_at_start. simpl.
  rewrite Nat.add_0_r. apply take_app_length.
Qed.

Lemma find_cons_miss (sep s : pystr) c :
  Str.startswith sep (c :: s) = false → Str.find sep (c :: s) = S <$> Str.find sep s.
Proof. intros H. by rewrite find_unfold, H. Qed.

(** Where the labeled marker can next be found behind a closing fence that
    no backtick follows. *)
Lemma find_labeled_behind_fence (post : pystr) :
  head post ≠ Some 96%N →
  Str.find fence_json (fence ++ post) = Some 0 ∨
  Str.find fence_json (fence ++ post) = (λ k, 3 + k) <$> Str.find fence_json post.
Proof.
  intros Hpost. change (fence ++ post) with (96%N :: 96%N :: 96%N :: post).
  destruct (Str.startswith fence_json (96%N :: 96%N :: 96%N :: post)) eqn:Hsw.
  { left. by rewrite find_unfold, Hsw. }
  right. rewrite (find_cons_miss _ _ _ Hsw).
  rewrite find_cons_miss.
  2:{ destruct post as [|c post]; [done|].
      assert (c ≠ 96%N) by (simpl in Hpost; congruence).
      simpl. rewrite (bool_decide_eq_false_2 (96%N = c)) by congruence. done. }
  rewrite find_cons_miss.
  2:{ destruct post as [|c post]; [done|].
      assert (c ≠ 96%N) by (simpl in Hpost; congruence).
      simpl. rewrite (bool_decide_eq_false_2 (96%N = c)) by congruence. done. }
  by destruct (Str.find fence_json post).
Qed.

(** X2.  A body without backticks, put in a labeled block whose closing
    fence no backtick follows, with any text behind it and backtick-free
    text in front, is extracted again, trimmed. *)
Theorem labeled_block_round_trip (pre body post : pystr) :
  96%N ∉ pre → 96%N ∉ body → head post ≠ Some 96%N →
  json_payload (pre ++ fence_json ++ body ++ fence ++ post) = Some (Str.strip body).
Proof.
  intros Hpre Hbody Hpost. unfold json_payload, Str.contains.
  assert (Str.find fence_json (pre ++ fence_json ++ body ++ fence ++ post)
          = Some (length pre)) as Hfind.
  { unfold fence_json at 1. change (py "```json") with (96%N :: py "``json").
    rewrite (find_after_plain _ _ _ Hpre).
    change (96%N :: py "``json") with fence_json.
    rewrite find_at_start. simpl. by rewrite Nat.add_0_r. }
  rewrite Hfind, (split_second _ _ _ fence_json_nonempty Hfind).
  cbn [mbind option_bind].
  rewrite (split_first _ _ fence_nonempty). cbn [mbind option_bind]. do 2 f_equal.
  rewrite <- drop_drop, drop_app_length, drop_app_length.
  unfold head_piece at 2.
  assert (Str.find fence_json (body ++ fence ++ post)
          = (λ i, length body + i) <$> Str.find fence_json (fence ++ post)) as ->.
  { unfold fence_json. change (py "```json") with (96%N :: py "``json") at 1 2.
    apply find_after_plain, Hbody. }
  destruct (find_labeled_behind_fence post Hpost) as [->| ->].
  - cbn [fmap option_fmap option_map]. rewrite Nat.add_0_r, take_app_length.
    unfold head_piece. change fence with (96%N :: py "``"). by rewrite find_plain.
  - destruct (Str.find fence_json post) as [k|]; cbn [fmap option_fmap option_map].
    + rewrite take_app_add. change (3 + k) with (length fence + k).
      rewrite take_app_add. by apply head_piece_closed.
    + by apply head_piece_closed.
Qed.

Lemma labeled_block_round_trip_witness :
  json_payload (py "Here it is: " ++ fence_json ++ (nl ++ py "{}" ++ nl) ++ fence ++ py " Done.")
  = Some (py "{}").
Proof.
  apply (labeled_block_round_trip (py "Here it is: ") (nl ++ py "{}" ++ nl) (py " Done.")).
  - apply (bool_decide_unpack (96%N ∉ _)). reflexivity.
  - apply (bool_decide_unpack (96%N ∉ _)). reflexivity.
  - discriminate.
Defined.

(** ** The request that a call sends *)

Lemma get_absent {V} (k : pystr) (d : dict V) : k ∉ Dict.keys d → Dict.get k d = None.
Proof.
  unfold Dict.keys. induction d as [|[k' v] d IH]; [done|]. simpl.
  rewrite not_elem_of_cons. intros [Hne Hnin].
  rewrite decide_False by done. by apply IH.
Qed.

Lemma get_present {V} (k : pystr) (d : dict V) : k ∈ Dict.keys d → is_Some (Dict.get k d).
Proof.
  unfold Dict.keys. induction d as [|[k' v] d IH]; simpl.
  - by intros ?%elem_of_nil.
  - intros [->|Hin]%elem_of_cons.
    + rewrite decide_True by done. by eexists.
    + destruct (decide (k = k')); [by eexists|by apply IH].
Qed.

Lemma set_absent {V} (k : pystr) (v : V) (d : dict V) :
  Dict.get k d = None → Dict.set k v d = d ++ [(k, v)].
Proof.
  induction d as [|[k' v'] d IH]; [done|]. simpl.
  destruct (decide (k = k')); [done|]. intros Hget. by rewrite IH.
Qed.

(** With no two keys alike, the mapping loop lays the translated parameters
    out in the order supplied. *)
Lemma mapping_loop_in_order (info : api_info) (kwargs acc : dict pyval) :
  NoDup (Dict.keys acc ++ Dict.keys (renamed info kwargs)) →
  fold_left (λ mapped_params '(param, value),
               Dict.set (mapped_name info param) value mapped_params)
            kwargs acc
  = acc ++ renamed info kwargs.
Proof.
  revert acc. induction kwargs as [|[param value] kwargs IH]; intros acc Hnd.
  - simpl. by rewrite app_nil_r.
  - simpl. unfold Dict.keys in *. simpl in Hnd.
    rewrite set_absent.
    + rewrite IH.
      * by rewrite <- (assoc_L (++)).
      * unfold Dict.keys. rewrite fmap_app. simpl. by rewrite <- (assoc_L (++)).
    + apply get_absent. apply list.NoDup_app in Hnd as (_ & Hdisj & _).
      intros Hin. apply (Hdisj _ Hin). apply list_elem_of_here.
Qed.

Lemma filter_agree {A} (P Q : A → Prop) `{!∀ x, Decision (P x), !∀ x, Decision (Q x)}
    (l : list A) :
  (∀ x, x ∈ l → P x ↔ Q x) → filter P l = filter Q l.
Proof.
  induction l as [|x l IH]; intros Hagree; [done|].
  rewrite !filter_cons.
  assert (filter P l = filter Q l) as ->.
  { apply IH. intros y Hy. apply Hagree. by apply list_elem_of_further. }
  pose proof (Hagree x (list_elem_of_here _ _)) as Hx.
  destruct (decide (P x)) as [HP|HP], (decide (Q x)) as [HQ|HQ]; try done.
  - by apply Hx in HP.
  - by apply Hx in HQ.
Qed.

(** The defaults loop adds, in their order, the defaults not yet present. *)
Lemma defaults_loop_in_order (defaults mapped_params : dict pyval) :
  NoDup (Dict.keys defaults) →
  fold_left (λ mapped_params '(param, value),
               if Dict.mem param mapped_params then mapped_params
               else Dict.set param value mapped_params)
            defaults mapped_params
  = mapped_params ++ filter (λ kv, Dict.mem kv.1 mapped_params = false) defaults.
Proof.
  revert mapped_params.
  induction defaults as [|[param value] defaults IH]; intros mapped_params Hnd.
  - simpl. by rewrite app_nil_r.
  - unfold Dict.keys in Hnd. simpl in Hnd. apply list.NoDup_cons in Hnd as [Hfresh Hnd].
    simpl fold_left. rewrite filter_cons. simpl.
    destruct (Dict.mem param mapped_params) eqn:Hmem.
    + rewrite decide_False by done. by apply IH.
    + rewrite decide_True by done. apply mem_false in Hmem.
      rewrite (set_absent _ _ _ Hmem), (IH _ Hnd), <- (assoc_L (++)). simpl.
      do 2 f_equal. apply filter_agree.
      intros [k v] Hin. simpl.
      assert (k ≠ param) as Hne.
      { intros ->. apply Hfresh. apply list_elem_of_fmap. by exists (param, v). }
      unfold Dict.mem.
      assert (Dict.get k (mapped_params ++ [(param, value)]) = Dict.get k mapped_params)
        as ->; [|done].
      clear -Hne. induction mapped_params as [|[k' v'] d IHd]; simpl.
      * by rewrite decide_False.
      * destruct (decide (k = k')); [done|apply IHd].
Qed.

(** X3.  When no two supplied keys translate alike, the request carries the
    supplied parameters in the order given, each under its provider-facing
    key, followed by the defaults whose keys were not supplied, in the
    registry's order. *)
Theorem request_parameters_in_order (E : env) api_name info kwargs :
  Dict.get api_name API_ENDPOINTS = Some info →
  missing_param info kwargs = None →
  NoDup (Dict.keys (renamed info kwargs)) →
  call_api_by_name E api_name kwargs
  = call_indian_api E (endpoint info)
      (renamed info kwargs ++ fresh_defaults info (renamed info kwargs)).
Proof.
  intros Hget Hcheck Hnd. unfold call_api_by_name. rewrite Hget, Hcheck.
  f_equal. unfold apply_defaults, apply_mapping, fresh_defaults.
  rewrite mapping_loop_in_order by done. simpl app.
  apply defaults_loop_in_order.
  clear -Hget. registry_cases Hget; apply (bool_decide_unpack (NoDup _)); reflexivity.
Qed.

Lemma request_parameters_in_order_witness :
  call_api_by_name online_env (py "get_historical_data")
    [(py "period", PyStr (py "1yr")); (py "stock_name", PyStr (py "TCS"))]
  = call_indian_api online_env (py "/historical_data")
      [ (py "period", PyStr (py "1yr"));
        (py "stock_name", PyStr (py "TCS"));
        (py "filter", PyStr (py "default")) ].
Proof.
  refine (request_parameters_in_order online_env (py "get_historical_data")
            {| endpoint := py "/historical_data";
               required_params := Some [py "stock_name"];
               optional_params := Some [py "period"];
               default_values := Some [(py "period", PyStr (py "1m"));
                                       (py "filter", PyStr (py "default"))];
               param_mapping := Some [];
               description := py "Get historical data for a stock" |}
            [(py "period", PyStr (py "1yr")); (py "stock_name", PyStr (py "TCS"))]
            eq_refl eq_refl _).
  apply (bool_decide_unpack (NoDup _)). reflexivity.
Defined.

(** X4.  A call never raises and leaves the history and the calls to the
    model alone.  It sends one request -- to the base address followed by the
    operation's endpoint, with the key header -- when the operation is
    registered and no required parameter is missing, and none otherwise; a
    request that fails comes back as the value [{error: message}]. *)
Theorem call_sends_at_most_one_request (E : env) api_name kwargs w :
  ∃ api_result w' sent,
    call_api_by_name E api_name kwargs w = (Ok api_result, w') ∧
    grows w w' sent [] ∧
    match Dict.get api_name API_ENDPOINTS with
    | None => sent = [] ∧ api_result = error_result (py "Unknown API: " ++ api_name)
    | Some info =>
        match missing_param info kwargs with
        | Some param =>
            sent = [] ∧
            api_result = error_result (py "Missing required parameter: " ++ param)
        | None =>
            ∃ final,
              sent = [ {| url := INDIAN_API_BASE_URL ++ endpoint info;
                          headers := [(py "X-Api-Key", INDIAN_API_KEY E)];
                          params := final |} ] ∧
              (∀ k, is_Some (Dict.get k final) ↔
                    k ∈ Dict.keys (renamed info kwargs)
                    ∨ k ∈ Dict.keys (default [] (default_values info))) ∧
              api_result
              = match requests_get E
                        {| url := INDIAN_API_BASE_URL ++ endpoint info;
                           headers := [(py "X-Api-Key", INDIAN_API_KEY E)];
                           params := final |} with
                | inr body => body
                | inl e => error_result e
                end
        end
    end.
Proof.
  unfold call_api_by_name.
  destruct (Dict.get api_name API_ENDPOINTS) as [info|].
  - destruct (missing_param info kwargs) as [param|].
    + eexists _, w, []. split; [done|]. split; [|done].
      unfold grows. by rewrite !app_nil_r.
    + eexists _,
        {| messages := messages w;
           http_log := http_log w ++
                       [provider_request E (endpoint info)
                          (apply_defaults info (apply_mapping info kwargs))];
           llm_log := llm_log w |}, _.
      split; [reflexivity|]. split.
      * unfold grows. simpl. split_and!; [done|reflexivity|by rewrite app_nil_r].
      * eexists. split; [reflexivity|]. split; [|reflexivity].
        intros k. rewrite get_final_params.
        destruct (supplied info kwargs k) as [v|] eqn:Hs.
        -- split; [intros _; left|by eexists].
           clear -Hs. induction kwargs as [|[p x] kwargs IH]; [done|].
           rewrite supplied_cons in Hs. unfold renamed, Dict.keys in *. simpl.
           destruct (supplied info kwargs k).
           ++ apply list_elem_of_further. by apply IH.
           ++ destruct (decide (mapped_name info p = k)) as [<-|]; [|done].
              apply list_elem_of_here.
        -- split.
           ++ intros Hsome. right.
              destruct Hsome as [v Hv]. apply get_in in Hv.
              unfold Dict.keys. apply list_elem_of_fmap. by exists (k, v).
           ++ intros [Hin|Hin]; [|by apply get_present].
              exfalso. clear -Hs Hin.
              induction kwargs as [|[p x] kwargs IH]; [by apply elem_of_nil in Hin|].
              rewrite supplied_cons in Hs. unfold renamed, Dict.keys in *. simpl in Hin.
              destruct (supplied info kwargs k); [done|].
              apply elem_of_cons in Hin as [->|Hin]; [by rewrite decide_True in Hs|].
              by apply IH.
  - eexists _, w, []. split; [done|]. split; [|done].
    unfold grows. by rewrite !app_nil_r.
Qed.

(** ** What a turn sends and records *)

Lemma grows_refl (w : world) : grows w w [] [].
Proof. unfold grows. by rewrite !app_nil_r. Qed.

Lemma grows_trans (w w1 w2 : world) h1 l1 h2 l2 :
  grows w w1 h1 l1 → grows w1 w2 h2 l2 → grows w w2 (h1 ++ h2) (l1 ++ l2).
Proof.
  intros (Hm1 & Hh1 & Hl1) (Hm2 & Hh2 & Hl2). unfold grows.
  rewrite Hm2, Hm1, Hh2, Hh1, Hl2, Hl1. by rewrite !(assoc_L (++)).
Qed.

Section Turn.
Context (E : env).

Lemma orchestrator_run query w :
  ∃ w1,
    orchestrator E query w
    = (match generate_content E (classification_request query) with
       | Ok response_text => Ok (parse_decision E response_text)
       | Raise e => Raise e
       end, w1) ∧
    grows w w1 [] [GenerateContent (classification_request query)].
Proof.
  eexists {| messages := messages w; http_log := http_log w;
             llm_log := llm_log w ++ [GenerateContent (classification_request query)] |}.
  split.
  - unfold orchestrator, mbind, Py_bind, log_llm, lift.
    fold (classification_request query).
    by destruct (generate_content E (classification_request query)).
  - unfold grows. simpl. by rewrite app_nil_r.
Qed.

Lemma call_grows api_name kwargs w :
  ∃ api_result w' sent,
    call_api_by_name E api_name kwargs w = (Ok api_result, w') ∧
    grows w w' sent [] ∧ length sent ≤ 1.
Proof.
  unfold call_api_by_name.
  destruct (Dict.get api_name API_ENDPOINTS) as [info|];
    [destruct (missing_param info kwargs)|].
  - eexists _, w, []. split_and!; [done|apply grows_refl|simpl; lia].
  - eexists _,
      {| messages := messages w;
         http_log := http_log w ++
                     [provider_request E (endpoint info)
                        (apply_defaults info (apply_mapping info kwargs))];
         llm_log := llm_log w |}, _.
    split_and!; [reflexivity| |].
    + unfold grows. simpl. split_and!; [done|reflexivity|by rewrite app_nil_r].
    + simpl. lia.
  - eexists _, w, []. split_and!; [done|apply grows_refl|simpl; lia].
Qed.

Lemma fetch_grows decision w :
  ∃ sent, grows w (fetch_api_context E decision w).2 sent [] ∧ length sent ≤ 1.
Proof.
  assert (∃ sent, grows w w sent [] ∧ length sent ≤ 1) as Hsame.
  { exists []. split; [apply grows_refl|simpl; lia]. }
  unfold fetch_api_context, py_get, mbind, Py_bind, mret, Py_ret, raise.
  destruct decision as [| | | | | |d]; try exact Hsame.
  destruct (truthy _); [|exact Hsame].
  unfold in_API_ENDPOINTS, mret, Py_ret, raise.
  destruct (Dict.get_or (py "function") (PyStr []) d) as [| | | |f| |]; try exact Hsame.
  destruct (Dict.mem f API_ENDPOINTS); [|exact Hsame].
  unfold call_with_kwargs, raise.
  destruct (Dict.get_or (py "params") (PyDict []) d) as [| | | | | |kwargs];
    try exact Hsame.
  destruct (Dict.mem (py "api_name") kwargs); [exact Hsame|].
  destruct (call_grows f kwargs w) as (r & w' & sent & -> & Hg & Hlen).
  by exists sent.
Qed.

Lemma stream_grows contents w :
  grows w (stream_response E contents w).2 [] [GenerateContentStream contents].
Proof.
  unfold stream_response, mbind, Py_bind, log_llm, lift, raise, mret, Py_ret, grows.
  destruct (accumulate _ _); [destruct (failure _)|]; simpl; by rewrite app_nil_r.
Qed.

(** How the body of a turn unfolds along its three steps. *)
Lemma answer_steps prompt w :
  answer E prompt w
  = match orchestrator E prompt w with
    | (Raise e, w1) => (Raise e, w1)
    | (Ok decision, w1) =>
        match fetch_api_context E decision w1 with
        | (Raise e, w2) => (Raise e, w2)
        | (Ok api_context, w2) =>
            stream_response E
              (compose_contents (compose_system_message (messages w2))
                                (compose_user_query prompt api_context)) w2
        end
    end.
Proof.
  unfold answer, mbind, Py_bind.
  destruct (orchestrator E prompt w) as [[decision|e] w1]; [|done].
  by destruct (fetch_api_context E decision w1) as [[api_context|e] w2].
Qed.

Lemma chat_turn_unfold prompt w :
  prompt ≠ [] →
  chat_turn E prompt w
  = (Ok (), recorded (answer E prompt (appended_user prompt w)).1
                     (answer E prompt (appended_user prompt w)).2).
Proof.
  intros Hprompt. destruct prompt as [|c prompt]; [done|].
  unfold chat_turn, try, append_message, mbind, Py_bind.
  fold (appended_user (c :: prompt) w).
  by destruct (answer E (c :: prompt) (appended_user (c :: prompt) w)) as [[t|e] w1].
Qed.

(** The turn in which the body raises before any generation. *)
Lemma answer_stops_at_orchestrator prompt w e :
  generate_content E (classification_request prompt) = Raise e →
  ∃ w1, answer E prompt w = (Raise e, w1) ∧
        grows w w1 [] [GenerateContent (classification_request prompt)].
Proof.
  intros Hraise. destruct (orchestrator_run prompt w) as (w1 & Horch & Hg).
  rewrite Hraise in Horch. exists w1. split; [|done].
  by rewrite answer_steps, Horch.
Qed.

Lemma answer_stops_at_fetch prompt w response_text e w1 w2 :
  orchestrator E prompt w = (Ok (parse_decision E response_text), w1) →
  fetch_api_context E (parse_decision E response_text) w1 = (Raise e, w2) →
  answer E prompt w = (Raise e, w2).
Proof. intros Horch Hfetch. by rewrite answer_steps, Horch, Hfetch. Qed.

(** The turn that needs no data: the user's words go to the model alone. *)
Lemma answer_without_data prompt w response_text d :
  generate_content E (classification_request prompt) = Ok response_text →
  parse_decision E response_text = PyDict d →
  truthy (Dict.get_or (py "needs_api") (PyBool false) d) = false →
  ∃ w1,
    grows w w1 [] [GenerateContent (classification_request prompt)] ∧
    answer E prompt w
    = stream_response E
        (compose_contents (compose_system_message (messages w)) prompt) w1.
Proof.
  intros Hreply Hdecision Hneeds.
  destruct (orchestrator_run prompt w) as (w1 & Horch & Hg).
  rewrite Hreply, Hdecision in Horch. exists w1. split; [done|].
  rewrite answer_steps, Horch.
  unfold fetch_api_context, py_get, mbind, Py_bind, mret, Py_ret.
  rewrite Hneeds. destruct Hg as (-> & _). done.
Qed.

End Turn.

Lemma stream_response_result (E : env) contents w :
  (stream_response E contents w).1
  = match accumulate (chunks (generate_content_stream E contents)) [] with
    | Ok t =>
        match failure (generate_content_stream E contents) with
        | None => Ok t
        | Some e => Raise e
        end
    | Raise e => Raise e
    end.
Proof.
  unfold stream_response, mbind, Py_bind, log_llm, lift, raise, mret, Py_ret.
  destruct (accumulate _ _); [|done]. by destruct (failure _).
Qed.

(** A turn whose body raised in [w1], having sent nothing but the
    classification request, leaves the apology behind. *)
Lemma turn_stopped (E : env) prompt w e w1 :
  prompt ≠ [] →
  answer E prompt (appended_user prompt w) = (Raise e, w1) →
  grows (appended_user prompt w) w1 [] [GenerateContent (classification_request prompt)] →
  chat_turn E prompt w = (Ok (), apologized prompt w).
Proof.
  intros Hprompt Hanswer (Hm & Hh & Hl). rewrite chat_turn_unfold, Hanswer by done.
  f_equal. unfold recorded, apologized. cbn [fst snd]. rewrite Hm, Hh, Hl.
  unfold appended_user. cbn [messages http_log llm_log].
  by rewrite app_nil_r, <- (assoc_L (++)).
Qed.

(** X5.  When the classification call raises in a turn (the prompt is not
    empty), the turn still completes: the apology is recorded, and neither
    the data provider nor the generator is asked anything. *)
Theorem failed_classification_ends_turn (E : env) prompt w e :
  prompt ≠ [] →
  generate_content E (classification_request prompt) = Raise e →
  chat_turn E prompt w = (Ok (), apologized prompt w).
Proof.
  intros Hprompt Hraise.
  destruct (answer_stops_at_orchestrator E prompt (appended_user prompt w) e Hraise)
    as (w1 & Hanswer & Hg).
  by eapply turn_stopped.
Qed.

Lemma failed_classification_ends_turn_witness :
  chat_turn silent_env (py "What is a bond?") fresh_world
  = (Ok (), apologized (py "What is a bond?") fresh_world).
Proof.
  apply (failed_classification_ends_turn silent_env (py "What is a bond?") fresh_world
           ServiceError).
  - discriminate.
  - reflexivity.
Defined.

(** X6.  When, in a turn (the prompt is not empty), the classifier's reply
    decodes to a JSON value that is not an object, reading [needs_api] from
    it raises: the turn records the apology and no generation request goes
    out. *)
Theorem non_object_decision_ends_turn (E : env) prompt w response_text :
  prompt ≠ [] →
  generate_content E (classification_request prompt) = Ok response_text →
  match parse_decision E response_text with PyDict _ => False | _ => True end →
  chat_turn E prompt w = (Ok (), apologized prompt w).
Proof.
  intros Hprompt Hreply Hshape.
  destruct (orchestrator_run E prompt (appended_user prompt w)) as (w1 & Horch & Hg).
  rewrite Hreply in Horch.
  eapply (turn_stopped E prompt w AttributeError w1); [done| |done].
  apply (answer_stops_at_fetch E _ _ response_text _ _ _ Horch).
  by destruct (parse_decision E response_text).
Qed.

Lemma non_object_decision_ends_turn_witness :
  chat_turn list_reply_env (py "What is a bond?") fresh_world
  = (Ok (), apologized (py "What is a bond?") fresh_world).
Proof.
  apply (non_object_decision_ends_turn list_reply_env (py "What is a bond?") fresh_world
           (Some (py "[]"))).
  - discriminate.
  - reflexivity.
  - exact I.
Defined.

(** X7.  When, in a turn (the prompt is not empty), the decision asks for
    data but the call cannot even be made -- the operation name is a list or
    an object, or the operation is registered and the parameters are not an
    object or bind [api_name] -- the turn records the apology; no request
    goes to the data provider and no generation request goes out. *)
Theorem rejected_call_ends_turn (E : env) prompt w response_text d :
  prompt ≠ [] →
  generate_content E (classification_request prompt) = Ok response_text →
  parse_decision E response_text = PyDict d →
  truthy (Dict.get_or (py "needs_api") (PyBool false) d) = true →
  rejected_call d = true →
  chat_turn E prompt w = (Ok (), apologized prompt w).
Proof.
  intros Hprompt Hreply Hdecision Hneeds Hrejected.
  destruct (orchestrator_run E prompt (appended_user prompt w)) as (w1 & Horch & Hg).
  rewrite Hreply in Horch.
  eapply (turn_stopped E prompt w TypeError w1); [done| |done].
  apply (answer_stops_at_fetch E _ _ response_text _ _ _ Horch).
  rewrite Hdecision.
  unfold fetch_api_context, py_get, mbind, Py_bind, mret, Py_ret.
  rewrite Hneeds. unfold rejected_call in Hrejected.
  unfold in_API_ENDPOINTS, call_with_kwargs, mret, Py_ret, raise.
  destruct (Dict.get_or (py "function") (PyStr []) d) as [| | | |f| |]; try done.
  destruct (Dict.mem f API_ENDPOINTS); [|done].
  destruct (Dict.get_or (py "params") (PyDict []) d) as [| | | | | |kwargs]; try done.
  simpl in Hrejected. by rewrite Hrejected.
Qed.

Lemma rejected_call_ends_turn_witness :
  chat_turn null_params_env (py "Which stocks are trending?") fresh_world
  = (Ok (), apologized (py "Which stocks are trending?") fresh_world).
Proof.
  apply (rejected_call_ends_turn null_params_env (py "Which stocks are trending?")
           fresh_world
           (Some (requote
              (py "{~needs_api~: true, ~function~: ~get_trending_stocks~, ~params~: null}")))
           [ (py "needs_api", PyBool true);
             (py "function", PyStr (py "get_trending_stocks"));
             (py "params", PyNone) ]);
    [discriminate|reflexivity..].
Defined.

(** The lines of the context and the bubbles of the page agree. *)
Lemma context_lines_of_display (l : list message) :
  concat (history_line <$> l) = concat (bubble_line <$> display l).
Proof.
  unfold display. induction l as [|m l IH]; [done|].
  change (omap display_message (m :: l))
    with (match display_message m with
          | Some b => b :: omap display_message l
          | None => omap display_message l
          end).
  rewrite fmap_cons. change (concat (?x :: ?r)) with (x ++ concat r). rewrite IH.
  unfold history_line, display_message.
  destruct (bool_decide (role m = py "user") && negb (bool_decide (content m = SYSTEM_PROMPT)));
    [done|].
  by destruct (bool_decide (role m = py "model")).
Qed.

(** What the code composes for the user's words alone is the plain request. *)
Lemma composed_plain_request (msgs : list message) (prompt : pystr) :
  compose_contents (compose_system_message msgs) prompt = plain_request msgs prompt.
Proof.
  unfold compose_contents, plain_request, compose_system_message, persona_and_context.
  by rewrite conversation_history_window, context_lines_of_display.
Qed.

(** A turn whose body went to the model with the user's words alone. *)
Lemma plain_turn (E : env) prompt w w1 :
  prompt ≠ [] →
  grows (appended_user prompt w) w1 [] [GenerateContent (classification_request prompt)] →
  answer E prompt (appended_user prompt w)
  = stream_response E
      (compose_contents (compose_system_message (messages (appended_user prompt w))) prompt)
      w1 →
  chat_turn E prompt w = (Ok (), answered_plainly E prompt w).
Proof.
  intros Hprompt (Hm & Hh & Hl) Hanswer.
  rewrite chat_turn_unfold, Hanswer by done. f_equal.
  rewrite composed_plain_request.
  change (messages (appended_user prompt w))
    with (messages w ++ [ {| role := py "user"; content := prompt |} ]).
  set (contents := plain_request _ prompt).
  destruct (stream_grows E contents w1) as (Hm2 & Hh2 & Hl2).
  unfold recorded, answered_plainly. fold contents.
  rewrite Hm2, Hh2, Hl2, Hm, Hh, Hl, stream_response_result.
  unfold appended_user. cbn [messages http_log llm_log].
  rewrite !app_nil_r, <- !(assoc_L (++)). simpl app.
  f_equal. do 3 f_equal. unfold streamed_reply.
  destruct (accumulate _ _); [|done]. by destruct (failure _).
Qed.

(** X8.  When, in a turn (the prompt is not empty), the decision is an
    object whose [needs_api] is missing or falsy, no request is sent to the
    data provider; the generation request consists of the persona text with
    the conversation context, the model's fixed acknowledgment and the user's
    words unchanged; and the history records the question and the streamed
    answer (the apology if the stream breaks). *)
Theorem no_data_needed_turn (E : env) prompt w response_text d :
  prompt ≠ [] →
  generate_content E (classification_request prompt) = Ok response_text →
  parse_decision E response_text = PyDict d →
  truthy (Dict.get_or (py "needs_api") (PyBool false) d) = false →
  chat_turn E prompt w = (Ok (), answered_plainly E prompt w).
Proof.
  intros Hprompt Hreply Hdecision Hneeds.
  destruct (answer_without_data E prompt (appended_user prompt w) response_text d
              Hreply Hdecision Hneeds) as (w1 & Hgrows & Hanswer).
  by eapply plain_turn.
Qed.

Lemma no_data_needed_turn_witness :
  chat_turn (sample_env (Ok (Some (requote (py "{~needs_api~: false}"))))
                        (inl (py "unused")) (plain_stream "It is interest on interest."))
            (py "What is compound interest?") fresh_world
  = (Ok (),
     {| messages :=
          initial_messages ++
          [ {| role := py "user"; content := py "What is compound interest?" |};
            {| role := py "model"; content := py "It is interest on interest." |} ];
        http_log := [];
        llm_log :=
          [ GenerateContent (classification_request (py "What is compound interest?"));
            GenerateContentStream
              [ {| content_role := py "user";
                   content_text :=
                     SYSTEM_PROMPT ++ nl ++ nl ++ py "Previous conversation:" ++ nl
                     ++ py "Assistant: " ++ GREETING ++ nl |};
                {| content_role := py "model"; content_text := ROLE_ACK |};
                {| content_role := py "user";
                   content_text := py "What is compound interest?" |} ] ] |}).
Proof.
  assert (py "What is compound interest?" ≠ []) as Hprompt by discriminate.
  exact (no_data_needed_turn
           (sample_env (Ok (Some (requote (py "{~needs_api~: false}"))))
                       (inl (py "unused")) (plain_stream "It is interest on interest."))
           (py "What is compound interest?") fresh_world
           (Some (requote (py "{~needs_api~: false}")))
           [(py "needs_api", PyBool false)] Hprompt eq_refl eq_refl eq_refl).
Defined.

(** X9.  A classification that cannot be used never blocks the turn: when,
    in a turn (the prompt is not empty), the reply has no text, or its
    payload does not decode, the turn goes on exactly as if no data were
    needed -- nothing goes to the data provider, and the generation request
    consists of the persona text with the conversation context, the model's
    fixed acknowledgment and the user's words unchanged. *)
Theorem undecodable_reply_goes_on (E : env) prompt w response_text :
  prompt ≠ [] →
  generate_content E (classification_request prompt) = Ok response_text →
  (response_text = None ∨
   ∃ text json_str, response_text = Some text ∧
                    json_payload text = Some json_str ∧
                    json_loads E json_str = None) →
  chat_turn E prompt w = (Ok (), answered_plainly E prompt w).
Proof.
  intros Hprompt Hreply Hbad.
  assert (parse_decision E response_text = fallback_decision) as Hfallback.
  { destruct Hbad as [->|(text & json_str & -> & Hpayload & Hloads)]; [done|].
    unfold parse_decision. simpl. rewrite Hpayload. simpl. by rewrite Hloads. }
  destruct (answer_without_data E prompt (appended_user prompt w) response_text
              [(py "needs_api", PyBool false)] Hreply Hfallback eq_refl)
    as (w1 & Hgrows & Hanswer).
  by eapply plain_turn.
Qed.

Lemma undecodable_reply_goes_on_witness :
  chat_turn prose_env (py "What is a bond?") fresh_world
  = (Ok (),
     {| messages :=
          initial_messages ++
          [ {| role := py "user"; content := py "What is a bond?" |};
            {| role := py "model"; content := py "ok" |} ];
        http_log := [];
        llm_log :=
          [ GenerateContent (classification_request (py "What is a bond?"));
            GenerateContentStream
              [ {| content_role := py "user";
                   content_text :=
                     SYSTEM_PROMPT ++ nl ++ nl ++ py "Previous conversation:" ++ nl
                     ++ py "Assistant: " ++ GREETING ++ nl |};
                {| content_role := py "model"; content_text := ROLE_ACK |};
                {| content_role := py "user"; content_text := py "What is a bond?" |} ] ] |}).
Proof.
  assert (py "What is a bond?" ≠ []) as Hprompt by discriminate.
  refine (undecodable_reply_goes_on prose_env (py "What is a bond?") fresh_world
            (Some (py "No data is needed here.")) Hprompt eq_refl _).
  right. exists (py "No data is needed here."), (py "No data is needed here.").
  split_and!; reflexivity.
Defined.

(** X10.  In every turn (the prompt is not empty) exactly one classification
    request goes out, first; at most one request goes to the data provider;
    at most one generation request goes out, last, and when none does the
    apology is what the history records. *)
Theorem turn_requests (E : env) prompt w :
  prompt ≠ [] →
  ∃ sent generation,
    http_log (chat_turn E prompt w).2 = http_log w ++ sent ∧
    length sent ≤ 1 ∧
    llm_log (chat_turn E prompt w).2
    = llm_log w ++ GenerateContent (classification_request prompt) :: generation ∧
    ((generation = [] ∧
      list.last (messages (chat_turn E prompt w).2)
      = Some {| role := py "model"; content := APOLOGY |})
     ∨ ∃ system_message user_query,
         generation = [GenerateContentStream (compose_contents system_message user_query)]).
Proof.
  intros Hprompt.
  rewrite chat_turn_unfold by done. cbn [snd]. unfold recorded.
  cbn [messages http_log llm_log].
  set (w0 := appended_user prompt w).
  assert (http_log w0 = http_log w ∧ llm_log w0 = llm_log w) as [Hh0 Hl0] by done.
  rewrite answer_steps.
  destruct (orchestrator_run E prompt w0) as (w1 & Horch & (Hm1 & Hh1 & Hl1)).
  rewrite Horch.
  destruct (generate_content E (classification_request prompt)) as [response_text|e].
  - destruct (fetch_grows E (parse_decision E response_text) w1)
      as (sent & (Hm2 & Hh2 & Hl2) & Hlen).
    destruct (fetch_api_context E (parse_decision E response_text) w1)
      as [[api_context|e] w2]; cbn [snd] in *.
    + set (contents := compose_contents _ _).
      destruct (stream_grows E contents w2) as (Hm3 & Hh3 & Hl3).
      exists sent, [GenerateContentStream contents]. split_and!.
      * rewrite Hh3, Hh2, Hh1, Hh0. by rewrite !app_nil_r.
      * done.
      * rewrite Hl3, Hl2, Hl1, Hl0. by rewrite !app_nil_r, <- (assoc_L (++)).
      * right. by eexists _, _.
    + exists sent, []. cbn [fst snd]. split_and!.
      * rewrite Hh2, Hh1, Hh0. by rewrite !app_nil_r.
      * done.
      * rewrite Hl2, Hl1, Hl0. by rewrite !app_nil_r.
      * left. split; [done|]. by rewrite last_snoc.
  - exists [], []. cbn [fst snd]. split_and!.
    + rewrite Hh1, Hh0. by rewrite !app_nil_r.
    + simpl. lia.
    + by rewrite Hl1, Hl0.
    + left. split; [done|]. by rewrite last_snoc.
Qed.

Lemma turn_requests_witness :
  ∃ sent generation,
    http_log (chat_turn online_env (py "Which stocks are trending?") fresh_world).2 = sent ∧
    length sent = 1 ∧
    llm_log (chat_turn online_env (py "Which stocks are trending?") fresh_world).2
    = GenerateContent (classification_request (py "Which stocks are trending?"))
      :: generation ∧
    length generation = 1.
Proof.
  destruct (turn_requests online_env (py "Which stocks are trending?") fresh_world)
    as (sent & generation & Hsent & _ & Hcalls & _).
  - discriminate.
  - change (http_log (chat_turn online_env (py "Which stocks are trending?")
                        fresh_world).2 = sent) in Hsent.
    change (llm_log (chat_turn online_env (py "Which stocks are trending?")
                       fresh_world).2
            = GenerateContent (classification_request (py "Which stocks are trending?"))
              :: generation) in Hcalls.
    exists sent, generation. split; [exact Hsent|].
    split; [|split; [exact Hcalls|]].
    + rewrite <- Hsent. reflexivity.
    + apply (f_equal length) in Hcalls. cbn [length] in Hcalls.
      apply (inj S). rewrite <- Hcalls. reflexivity.
Defined.

(** ** The streamed answer *)

(** X11.  The answer that a stream adds up to is the texts of its fragments
    joined in order behind what was there, fragments without text skipped; a
    fragment whose text is [None] makes the accumulation raise, whatever came
    before it. *)
Theorem accumulate_joins_fragments (cs : list chunk) (full_response : pystr) :
  accumulate cs full_response
  = if texts_present cs then Ok (full_response ++ concat (chunk_texts cs))
    else Raise TypeError.
Proof.
  revert full_response.
  induction cs as [|[|[t|]] cs IH]; intros full_response; simpl.
  - by rewrite app_nil_r.
  - apply IH.
  - rewrite IH. destruct (texts_present cs); [|done]. by rewrite <- (assoc_L (++)).
  - done.
Qed.

(** ** The page and the history *)

Lemma alternating_app_both (a : list message) :
  (alternating a = true → ∀ b, alternating (a ++ b) = alternating b) ∧
  (∀ u, alternating (u :: a) = true → ∀ b, alternating ((u :: a) ++ b) = alternating b).
Proof.
  induction a as [|m a [IH1 IH2]].
  - split; [done|]. by intros u Hu.
  - split; [by apply IH2|].
    intros u Hu b. simpl in Hu |- *.
    apply andb_true_iff in Hu as [Hroles Hrest]. rewrite Hroles.
    by apply IH1.
Qed.

(** X12.  A turn keeps the history in pairs: if it is a sequence of a user
    entry followed by a model entry before the turn, so it is after it,
    whether the turn succeeded or not. *)
Theorem chat_turn_keeps_pairs (E : env) prompt w :
  alternating (messages w) = true →
  alternating (messages (chat_turn E prompt w).2) = true.
Proof.
  intros Hpairs. destruct (decide (prompt = [])) as [->|Hprompt]; [done|].
  rewrite chat_turn_unfold by done. cbn [snd]. unfold recorded. cbn [messages].
  rewrite (keeps_answer E prompt (appended_user prompt w)).
  unfold appended_user. cbn [messages]. rewrite <- (assoc_L (++)).
  rewrite (proj1 (alternating_app_both (messages w)) Hpairs). reflexivity.
Qed.

Lemma chat_turn_keeps_pairs_witness :
  alternating (messages (chat_turn offline_env (py "Which stocks are trending?")
                           fresh_world).2) = true.
Proof.
  apply (chat_turn_keeps_pairs offline_env (py "Which stocks are trending?") fresh_world).
  reflexivity.
Defined.

(** X13.  After a turn (the prompt is not empty) the page shows what it
    showed before, then the question -- unless the question is, word for
    word, the persona text, which the page hides -- and then the recorded
    answer. *)
Theorem display_after_turn (E : env) prompt w :
  prompt ≠ [] →
  ∃ reply,
    list.last (messages (chat_turn E prompt w).2)
    = Some {| role := py "model"; content := reply |} ∧
    display (messages (chat_turn E prompt w).2)
    = display (messages w)
      ++ (if bool_decide (prompt = SYSTEM_PROMPT) then [] else [(py "user", prompt)])
      ++ [(py "assistant", reply)].
Proof.
  intros Hprompt.
  rewrite chat_turn_unfold by done. cbn [snd]. unfold recorded. cbn [messages].
  rewrite (keeps_answer E prompt (appended_user prompt w)).
  eexists. split; [by rewrite last_snoc|].
  unfold appended_user, display. cbn [messages].
  rewrite !omap_app. rewrite <- (assoc_L (++)). f_equal. f_equal.
  unfold display_message. cbn [omap list_omap role content].
  rewrite (bool_decide_eq_true_2 (py "user" = py "user")) by done. cbn [andb].
  repeat case_bool_decide; done.
Qed.

Lemma display_after_turn_witness :
  display (messages (chat_turn online_env SYSTEM_PROMPT fresh_world).2)
  = [(py "assistant", GREETING); (py "assistant", py "ok")] ∧
  display (messages (chat_turn online_env (py "Which stocks are trending?") fresh_world).2)
  = [ (py "assistant", GREETING);
      (py "user", py "Which stocks are trending?");
      (py "assistant", py "ok") ].
Proof.
  split.
  - destruct (display_after_turn online_env SYSTEM_PROMPT fresh_world)
      as (reply & Hlast & Hdisplay); [discriminate|].
    rewrite Hdisplay. injection Hlast as <-. reflexivity.
  - destruct (display_after_turn online_env (py "Which stocks are trending?") fresh_world)
      as (reply & Hlast & Hdisplay); [discriminate|].
    rewrite Hdisplay. injection Hlast as <-. reflexivity.
Defined.

(** The context loop and the page render the same entries. *)
Lemma history_line_of_display (m : message) :
  history_line m = from_option bubble_line [] (display_message m).
Proof.
  unfold history_line, display_message.
  destruct (bool_decide (role m = py "user") && negb (bool_decide (content m = SYSTEM_PROMPT)));
    [done|].
  by destruct (bool_decide (role m = py "model")).
Qed.

(** X14.  The conversation context is, line for line, what the page shows
    for the history entries at positions 1 to 4, the last entry of the
    history left out: an entry hidden on the page is absent from the context
    and the other way round. *)
Theorem context_is_what_the_page_shows (msgs : list message) :
  conversation_history msgs
  = concat (bubble_line <$> display (take (min 5 (length msgs - 1) - 1) (drop 1 msgs))).
Proof.
  rewrite conversation_history_window. unfold display.
  induction (take _ _) as [|m l IH]; [done|].
  change (omap display_message (m :: l))
    with (match display_message m with
          | Some b => b :: omap display_message l
          | None => omap display_message l
          end).
  rewrite fmap_cons, history_line_of_display. change (concat (?x :: ?r)) with (x ++ concat r).
  rewrite IH. by destruct (display_message m).
Qed.

(** X15.  Once the history holds six entries the conversation context no
    longer changes: whatever is appended later, the context is the one built
    from the entries at positions 1 to 4. *)
Theorem context_stops_growing (msgs more : list message) :
  6 ≤ length msgs →
  conversation_history (msgs ++ more) = conversation_history msgs.
Proof.
  intros Hlen. rewrite !conversation_history_window, length_app.
  replace (min 5 (length msgs + length more - 1) - 1) with 4 by lia.
  replace (min 5 (length msgs - 1) - 1) with 4 by lia.
  do 2 f_equal. rewrite drop_app_le by lia. apply take_app_le.
  rewrite length_drop. lia.
Qed.

Lemma context_stops_growing_witness :
  conversation_history
    (long_session ++ [ {| role := py "model"; content := py "a4" |};
                       {| role := py "user"; content := py "q5" |} ])
  = conversation_history long_session.
Proof.
  apply (context_stops_growing long_session). simpl. lia.
Defined.
